(** * Google Fonts Explorer: the resolution, extraction and preview-cache core

    A shallow embedding of [src/main.py]: the family resolver
    ([find_font_family]), the stylesheet fetcher and parser
    ([get_font_urls]) and the preview population of [filter_fonts] /
    [load_font_for_preview], followed by the properties of the specification
    stated on these definitions.

    Conventions.
    - A Python [str] is a [string]; each [ascii] stands for one code point
      in the range U+0000..U+00FF, on which the builtins used by the program
      ([str.lower], [str.strip], [in], [\s], [\d], [\w]) are modelled exactly.
    - A Python [dict] is a [gmap] (the dictionary returned by
      [get_font_urls], whose three keys are fixed, is a record); a [set] is
      a [gset].
    - The network is a record of two oracles; [None] stands for a raised
      [requests.RequestException].
    - The metadata document is taken as the endpoint serves it, an object
      whose family list holds objects with string fields; module [Dyn]
      gives the resolver and [get_font_urls] on any JSON value, with the
      exceptions that escape them, and [new_font] is stated on that
      module. *)

From Stdlib Require Import String Ascii NArith Bool Arith Lia.
From Stdlib Require SpecFloat.
From stdpp Require Import base option list gmap strings pretty.

Local Open Scope string_scope.
Local Open Scope list_scope.

(** ** Python string builtins (module [Py]) *)

Module Py.

(** Code point of a character. *)
Definition ord (c : ascii) : N := N_of_ascii c.

(** [str.isspace] for one character; also the class [\s] of [re]. *)
Definition isspace (c : ascii) : bool :=
  let n := ord c in
  ((9 <=? n) && (n <=? 13) || (28 <=? n) && (n <=? 32)
   || (n =? 133) || (n =? 160))%N.

(** The class [\d] of [re]: decimal digits. *)
Definition isdigit (c : ascii) : bool :=
  let n := ord c in ((48 <=? n) && (n <=? 57))%N.

(** The class [\w] of [re]: alphanumeric characters and the underscore. *)
Definition isword (c : ascii) : bool :=
  let n := ord c in
  (isdigit c
   || (65 <=? n) && (n <=? 90) || (n =? 95) || (97 <=? n) && (n <=? 122)
   || (n =? 170) || (n =? 178) || (n =? 179) || (n =? 181)
   || (n =? 185) || (n =? 186) || (188 <=? n) && (n <=? 190)
   || (192 <=? n) && (n <=? 214) || (216 <=? n) && (n <=? 246)
   || (248 <=? n))%N.

(** [str.lower] on one character: A-Z and the upper-case letters of
    U+00C0..U+00DE (the multiplication sign U+00D7 excepted) move up by
    32; every other code point below U+0100 is its own lower case. *)
Definition lower_char (c : ascii) : ascii :=
  let n := ord c in
  if ((65 <=? n) && (n <=? 90)
      || (192 <=? n) && (n <=? 222) && negb (n =? 215))%N
  then ascii_of_N (n + 32) else c.

(** [s.lower()] *)
Fixpoint lower (s : string) : string :=
  match s with
  | EmptyString => EmptyString
  | String c s' => String (lower_char c) (lower s')
  end.

(** [a == b] on strings. *)
Definition eqb (a b : string) : bool := String.eqb a b.

(** [needle in hay]: [needle] occurs in [hay] as a contiguous substring. *)
Fixpoint contains (needle hay : string) : bool :=
  if String.prefix needle hay then true
  else match hay with
       | EmptyString => false
       | String _ hay' => contains needle hay'
       end.

(** [s.replace(old, new)] for one-character [old] and [new]. *)
Fixpoint replace (old new : ascii) (s : string) : string :=
  match s with
  | EmptyString => EmptyString
  | String c s' =>
      String (if Ascii.eqb c old then new else c) (replace old new s')
  end.

(** [s.lstrip()] *)
Fixpoint lstrip (s : string) : string :=
  match s with
  | EmptyString => EmptyString
  | String c s' => if isspace c then lstrip s' else s
  end.

(** [s.rstrip()] *)
Fixpoint rstrip (s : string) : string :=
  match s with
  | EmptyString => EmptyString
  | String c s' =>
      match rstrip s' with
      | EmptyString => if isspace c then EmptyString else String c EmptyString
      | r => String c r
      end
  end.

(** [s.strip()] *)
Definition strip (s : string) : string := rstrip (lstrip s).

(** Truthiness of a string: [not s] holds exactly for the empty string. *)
Definition truthy (s : string) : bool :=
  match s with EmptyString => false | String _ _ => true end.

End Py.

(** The characters of a string, in order. *)
Definition chars (s : string) : list ascii := list_ascii_of_string s.

(** ** The catalog returned by the metadata endpoint *)

(** One row of ["familyMetadataList"] is a JSON object with string fields,
    of which the program reads ["family"] only: a [gmap string string].
    The metadata document is a JSON object of which the program reads only
    the key ["familyMetadataList"], whose value is the ordered family list:
    a [gmap string (list (gmap string string))]. *)

(** The network as seen by the program.  [None] is a raised
    [requests.RequestException] (transport error, error status, or a body
    that is not JSON). *)
Record network := {
  (** [requests.get(url)] followed by [raise_for_status] and [.json()] *)
  get_json : string -> option (gmap string (list (gmap string string)));
  (** [requests.get(url)] followed by [raise_for_status] and [.text] *)
  get_text : string -> option string
}.

Definition metadata_url : string := "https://fonts.google.com/metadata/fonts".

(** [get_google_fonts_metadata()] *)
Definition get_google_fonts_metadata (net : network)
  : option (gmap string (list (gmap string string))) :=
  get_json net metadata_url.

(** [font_data.get("family", "")] *)
Definition family_of (fd : gmap string string) : string :=
  default "" (fd !! "family").

(** [metadata.get("familyMetadataList", [])] *)
Definition family_list_of (md : gmap string (list (gmap string string)))
  : list (gmap string string) :=
  default [] (md !! "familyMetadataList").

(** The first loop of [find_font_family]: case-insensitive equality. *)
Fixpoint exact_pass (search_name_lower : string)
    (family_list : list (gmap string string)) : option string :=
  match family_list with
  | [] => None
  | fd :: rest =>
      let family_name := family_of fd in
      if Py.eqb (Py.lower family_name) search_name_lower
      then Some family_name
      else exact_pass search_name_lower rest
  end.

(** The second loop of [find_font_family]: case-insensitive containment. *)
Fixpoint substring_pass (search_name_lower : string)
    (family_list : list (gmap string string)) : option string :=
  match family_list with
  | [] => None
  | fd :: rest =>
      let family_name := family_of fd in
      if Py.contains search_name_lower (Py.lower family_name)
      then Some family_name
      else substring_pass search_name_lower rest
  end.

(** [find_font_family(search_name, metadata=None)].  The argument
    [md = None] is the default [metadata=None], in which case the catalog is
    fetched; the result [None] is Python's [None]. *)
Definition find_font_family (net : network) (search_name : string)
    (md : option (gmap string (list (gmap string string)))) : option string :=
  let md := match md with
            | None => get_google_fonts_metadata net
            | Some m => Some m
            end in
  match md with
  | None => None
  | Some m =>
      if decide (m = ∅) then None
      else
        let search_name_lower := Py.lower search_name in
        let family_list := family_list_of m in
        match exact_pass search_name_lower family_list with
        | Some family_name => Some family_name
        | None => substring_pass search_name_lower family_list
        end
  end.

(** A catalog row holding just a family name. *)
Definition entry (family_name : string) : gmap string string :=
  {[ "family" := family_name ]}.

(** The catalog as the specification sees it, an ordered sequence of rows,
    is the metadata document whose family list holds these rows. *)
Definition catalog_of (rows : list (gmap string string))
  : gmap string (list (gmap string string)) :=
  {[ "familyMetadataList" := rows ]}.

(** A network on which every request fails. *)
Definition no_network : network :=
  {| get_json := fun _ => None; get_text := fun _ => None |}.

(** The network that serves one metadata document and one stylesheet text
    whatever the URL. *)
Definition serve (md : gmap string (list (gmap string string)))
    (css_content : string) : network :=
  {| get_json := fun _ => Some md; get_text := fun _ => Some css_content |}.

(** ** The fragment of Python's [re] used by the program (module [Re])

    The four patterns of the program are sequences of literal characters,
    repeated character classes (greedy or lazy) and capture groups.  The
    matcher below is the backtracking matcher of [re] on that fragment: a
    greedy repetition tries the longest run first and gives characters back
    one at a time, a lazy one tries the shortest run first and takes one
    more character at a time; the first alternative that lets the rest of
    the pattern match wins. *)

Module Re.

Inductive item : Type :=
| Chr (c : ascii)                      (** a literal character *)
| Rep (cls : ascii -> bool) (lo : nat) (greedy : bool)
                                       (** [cls{lo,}] or [cls{lo,}?] *)
| Open (g : nat)                       (** start of capture group [g] *)
| Close (g : nat).                     (** end of capture group [g] *)

Definition pattern : Type := list item.

(** A literal string inside a pattern. *)
Definition lit (s : string) : pattern := Chr <$> chars s.

(** [*] and [+] on a character class, and their lazy forms. *)
Definition star (cls : ascii -> bool) : item := Rep cls 0 true.
Definition plus (cls : ascii -> bool) : item := Rep cls 1 true.
Definition plus_lazy (cls : ascii -> bool) : item := Rep cls 1 false.

(** The negated one-character class [[^c]]. *)
Definition not_char (c : ascii) : ascii -> bool :=
  fun x => negb (Ascii.eqb x c).

(** The span [(start, end)] of each capture group, by group number. *)
Abbreviation spans := (gmap nat (nat * nat)).

(** Repetition of a character class at least [lo] times, followed by the
    continuation [k] for the rest of the pattern. *)
Fixpoint rep (cls : ascii -> bool) (greedy : bool)
    (k : list ascii -> nat -> option (nat * spans))
    (lo : nat) (s : list ascii) (pos : nat) {struct s}
  : option (nat * spans) :=
  if greedy then
    match
      match s with
      | c :: s' =>
          if cls c then rep cls greedy k (pred lo) s' (S pos) else None
      | [] => None
      end
    with
    | Some r => Some r
    | None => match lo with 0 => k s pos | S _ => None end
    end
  else
    match match lo with 0 => k s pos | S _ => None end with
    | Some r => Some r
    | None =>
        match s with
        | c :: s' =>
            if cls c then rep cls greedy k (pred lo) s' (S pos) else None
        | [] => None
        end
    end.

(** Match pattern [p] against [s], the part of the subject that starts at
    offset [pos]; on success, the end offset and the group spans. *)
Fixpoint match_here (p : pattern) (caps : spans) (s : list ascii)
    (pos : nat) {struct p} : option (nat * spans) :=
  match p with
  | [] => Some (pos, caps)
  | Chr c :: p' =>
      match s with
      | c' :: s' =>
          if Ascii.eqb c' c then match_here p' caps s' (S pos) else None
      | [] => None
      end
  | Rep cls lo greedy :: p' =>
      rep cls greedy (fun s' pos' => match_here p' caps s' pos') lo s pos
  | Open g :: p' => match_here p' (<[g := (pos, pos)]> caps) s pos
  | Close g :: p' =>
      match_here p'
        (<[g := (default pos (fst <$> caps !! g), pos)]> caps) s pos
  end.

(** Leftmost match at or after offset [pos]. *)
Fixpoint search_from (p : pattern) (s : list ascii) (pos : nat)
  : option (nat * spans) :=
  match match_here p ∅ s pos with
  | Some r => Some r
  | None =>
      match s with
      | [] => None
      | _ :: s' => search_from p s' (S pos)
      end
  end.

(** All non-overlapping matches, left to right.  [skip] counts the
    characters still covered by the previous match; a match that consumed
    no character lets the scan move on by one. *)
Fixpoint findall_from (p : pattern) (s : list ascii) (pos skip : nat)
  : list spans :=
  match s with
  | [] =>
      match skip with
      | 0 => match match_here p ∅ [] pos with
             | Some (_, caps) => [caps]
             | None => []
             end
      | S _ => []
      end
  | _ :: s' =>
      match skip with
      | S skip' => findall_from p s' (S pos) skip'
      | 0 =>
          match match_here p ∅ s pos with
          | Some (e, caps) => caps :: findall_from p s' (S pos) (e - pos - 1)
          | None => findall_from p s' (S pos) 0
          end
      end
  end.

(** The text between two offsets of the subject. *)
Definition slice (text : string) (span : nat * nat) : string :=
  string_of_list_ascii
    (take (snd span - fst span) (drop (fst span) (chars text))).

(** [m.group(g)] on the subject [text].  Every group of the program's
    patterns takes part in every match, so the default span is never used. *)
Definition group (text : string) (caps : spans) (g : nat) : string :=
  slice text (default (0, 0) (caps !! g)).

(** [re.search(p, text)]: the group spans of the leftmost match. *)
Definition search (p : pattern) (text : string) : option spans :=
  snd <$> search_from p (chars text) 0.

(** [re.findall(p, text)], as the group spans of each match in order. *)
Definition findall (p : pattern) (text : string) : list spans :=
  findall_from p (chars text) 0 0.

End Re.

(** ** Stylesheet parsing *)

(** A Python value stored in a font-face dictionary. *)
Inductive pyval : Type :=
| PStr (s : string)
| PInt (n : Z).

#[global] Instance pyval_eq_dec : EqDecision pyval.
Proof. solve_decision. Defined.

(** The dictionary returned by [get_font_urls]. *)
Record font_info := {
  family : string;
  fonts : list (gmap string pyval);
  all_urls : list string
}.

(** [r"/\*\s*([^*]+?)\s*\*/\s*@font-face\s*\{([^}]+)\}"] *)
Definition face_pattern : Re.pattern :=
  Re.lit "/*" ++ [Re.star Py.isspace;
                  Re.Open 1; Re.plus_lazy (Re.not_char "*"); Re.Close 1;
                  Re.star Py.isspace]
  ++ Re.lit "*/" ++ [Re.star Py.isspace]
  ++ Re.lit "@font-face" ++ [Re.star Py.isspace]
  ++ Re.lit "{" ++ [Re.Open 2; Re.plus (Re.not_char "}"); Re.Close 2]
  ++ Re.lit "}".

(** [r"font-weight:\s*(\d+)"] *)
Definition weight_pattern : Re.pattern :=
  Re.lit "font-weight:"
  ++ [Re.star Py.isspace; Re.Open 1; Re.plus Py.isdigit; Re.Close 1].

(** [r"font-style:\s*(\w+)"] *)
Definition style_pattern : Re.pattern :=
  Re.lit "font-style:"
  ++ [Re.star Py.isspace; Re.Open 1; Re.plus Py.isword; Re.Close 1].

(** [r"src:\s*url\(([^)]+)\)"] *)
Definition url_pattern : Re.pattern :=
  Re.lit "src:" ++ [Re.star Py.isspace] ++ Re.lit "url("
  ++ [Re.Open 1; Re.plus (Re.not_char ")"); Re.Close 1] ++ Re.lit ")".

(** ["woff2" if ".woff2" in url else "woff" if ".woff" in url else "ttf"] *)
Definition format_type (url : string) : string :=
  if Py.contains ".woff2" url then "woff2"
  else if Py.contains ".woff" url then "woff"
  else "ttf".

(** The dictionary literal of lines 69-75, by the values of its five keys. *)
Definition face_dict (subset weight style url format : pyval)
  : gmap string pyval :=
  <["subset" := subset]>
    (<["weight" := weight]>
       (<["style" := style]>
          (<["url" := url]>
             (<["format" := format]> ∅)))).

(** The body of the loop over [matches]: the dictionary appended to
    [font_faces] for one (subset, font_face_content) pair, or [None] when the
    block has no [src: url(...)] and nothing is appended. *)
Definition font_face_of (m : string * string) : option (gmap string pyval) :=
  let '(subset, font_face_content) := m in
  let subset := Py.strip subset in
  let weight :=
    match Re.search weight_pattern font_face_content with
    | Some weight_match => Re.group font_face_content weight_match 1
    | None => "400"
    end in
  let style :=
    match Re.search style_pattern font_face_content with
    | Some style_match => Re.group font_face_content style_match 1
    | None => "normal"
    end in
  match Re.search url_pattern font_face_content with
  | Some url_match =>
      let url := Re.group font_face_content url_match 1 in
      let format_type := format_type url in
      Some (face_dict (PStr subset) (PStr weight) (PStr style) (PStr url)
              (PStr format_type))
  | None => None
  end.

(** [re.findall(face_pattern, css_content, re.MULTILINE | re.DOTALL)]: the
    pairs of groups 1 and 2.  The pattern has no [^], [$] or [.], so the two
    flags change nothing. *)
Definition face_matches (css_content : string) : list (string * string) :=
  (fun caps => (Re.group css_content caps 1, Re.group css_content caps 2))
    <$> Re.findall face_pattern css_content.

(** [re.findall(url_pattern, css_content)]: group 1 of each match. *)
Definition url_matches (css_content : string) : list string :=
  (fun caps => Re.group css_content caps 1)
    <$> Re.findall url_pattern css_content.

(** [list(set(xs))].  The iteration order of a Python set is unspecified;
    the order of [elements] stands for it, and nothing below relies on it
    beyond [elements] listing each member once. *)
Definition list_set (xs : list string) : list string :=
  elements (list_to_set xs : gset string).

(** Lines 51-85 of [get_font_urls]: what is returned for the stylesheet text
    [css_content]. *)
Definition parse_stylesheet (family_name css_content : string) : font_info :=
  let font_faces := omap font_face_of (face_matches css_content) in
  let all_urls := url_matches css_content in
  {| family := family_name;
     fonts := font_faces;
     all_urls := list_set all_urls |}.

(** The stylesheet request URL built from the resolved family. *)
Definition css_url (correct_family_name : string) : string :=
  "https://fonts.googleapis.com/css2?family="
  +:+ Py.replace " " "+" correct_family_name
  +:+ ":wght@400;700&display=swap".

(** [get_font_urls(family_name)] *)
Definition get_font_urls (net : network) (family_name : string)
  : option font_info :=
  match find_font_family net family_name None with
  | None => None
  | Some correct_family_name =>
      if negb (Py.truthy correct_family_name) then None
      else
        match get_text net (css_url correct_family_name) with
        | Some css_content => Some (parse_stylesheet family_name css_content)
        | None => None
        end
  end.

(** ** The preview cache of [filter_fonts]

    [page._preview_fonts] and [page.fonts] are dictionaries from font key to
    URL.  [requests] is the log of the HTTP requests issued so far; it is
    not a variable of the program, it records what the program does to the
    network. *)

Record session := {
  preview_fonts : gmap string string;   (** [page._preview_fonts] *)
  page_fonts : gmap string string;      (** [page.fonts] *)
  requests : list string                (** URLs requested, oldest first *)
}.

(** The state after [main] has initialised the page. *)
Definition initial_session : session :=
  {| preview_fonts := ∅; page_fonts := ∅; requests := [] |}.

(** [f"preview_{font['family'].replace(' ', '_').replace('-', '_')}"] *)
Definition font_key_of (family_name : string) : string :=
  "preview_" +:+ Py.replace "-" "_" (Py.replace " " "_" family_name).

(** The HTTP requests issued by one call [get_font_urls(family_name)], in
    order: the metadata document, then the stylesheet when the family was
    resolved to a non-empty name. *)
Definition requests_of_get_font_urls (net : network) (family_name : string)
  : list string :=
  metadata_url ::
  match find_font_family net family_name None with
  | Some correct_family_name =>
      if Py.truthy correct_family_name
      then [css_url correct_family_name] else []
  | None => []
  end.

(** [update_fonts()]: both dictionaries receive the URL under the key. *)
Definition update_fonts (font_key font_url : string) (s : session) : session :=
  {| preview_fonts := <[font_key := font_url]> (preview_fonts s);
     page_fonts := <[font_key := font_url]> (page_fonts s);
     requests := requests s |}.

(** [load_font()], the closure returned by [load_font_for_preview], run from
    start to end without another task in between. *)
Definition load_font (net : network) (family_name font_key : string)
    (s : session) : session :=
  if decide (is_Some (preview_fonts s !! font_key)) then s
  else
    let s :=
      {| preview_fonts := preview_fonts s;
         page_fonts := page_fonts s;
         requests := requests s ++ requests_of_get_font_urls net family_name |} in
    match get_font_urls net family_name with
    | Some font_info =>
        match all_urls font_info with
        | font_url :: _ => update_fonts font_key font_url s
        | [] => s
        end
    | None => s
    end.

(** What [filter_fonts] does for one listed family: compute the key and,
    when the key is not in [page._preview_fonts], run [load_font] (here in
    the caller's turn; the interleaved execution is module [Threads]). *)
Definition request_preview (net : network) (family_name : string)
    (s : session) : session :=
  let font_key := font_key_of family_name in
  if decide (is_Some (preview_fonts s !! font_key)) then s
  else load_font net family_name font_key s.

(** A session of preview requests, each with the network as it answers at
    that time, oldest first. *)
Definition request_previews (calls : list (network * string)) (s : session)
  : session :=
  foldl (fun s call => request_preview call.1 call.2 s) s calls.

(** ** Interleaved execution of the preview tasks (module [Threads])

    [page.run_thread] starts [load_font] on a thread of its own, so the
    tasks run concurrently with each other.  A step of a task is one access
    to what the tasks share, with the local computation that leads to it:
    the membership test on [page._preview_fonts] (line 221) and the sending
    of the metadata request; the arrival of the metadata response and the
    sending of the stylesheet request; the arrival of the stylesheet
    response; the write to [page._preview_fonts] (line 230); the write to
    [page.fonts] (line 231).  Between two steps of a task any other task
    may take steps.  The responses are chosen by the environment; a
    response on which [get_font_urls] raises ends the task without a write
    (line 250), as a failed request does, and is not told apart from one. *)

Module Threads.

Inductive pc : Type :=
| AtCheck                        (** started, before [if font_key in ...] *)
| AwaitMetadata                  (** metadata request sent *)
| AwaitStylesheet (url : string) (** stylesheet request sent *)
| AtPreviewWrite (font_url : string)
    (** in [update_fonts], before the write of line 230 *)
| AtFontsWrite (font_url : string)
    (** line 230 done, before the write of line 231 *)
| Done.

Record task := {
  task_family : string;
  task_key : string;
  task_pc : pc
}.

Record config := {
  shared : session;
  tasks : list task
}.

Inductive event : Type :=
| Spawn (family_name : string)
    (** one row of [filter_fonts]: test the key, start a task *)
| Check (i : nat)
    (** task [i] runs its own test of the key *)
| MetadataResponse (i : nat)
    (resp : option (gmap string (list (gmap string string))))
    (** the metadata request of task [i] returns *)
| StylesheetResponse (i : nat) (resp : option string)
    (** the stylesheet request of task [i] returns *)
| WritePreview (i : nat)
    (** task [i] runs [page._preview_fonts[font_key] = font_url] *)
| WriteFonts (i : nat)
    (** task [i] runs [page.fonts[font_key] = font_url] *).

Definition set_pc (i : nat) (t : task) (p : pc) (c : config) : config :=
  {| shared := shared c;
     tasks := <[i := {| task_family := task_family t;
                        task_key := task_key t;
                        task_pc := p |}]> (tasks c) |}.

Definition log_request (url : string) (c : config) : config :=
  {| shared := {| preview_fonts := preview_fonts (shared c);
                  page_fonts := page_fonts (shared c);
                  requests := requests (shared c) ++ [url] |};
     tasks := tasks c |}.

(** The network that answers the metadata request with [resp]. *)
Definition metadata_answer
    (resp : option (gmap string (list (gmap string string)))) : network :=
  {| get_json := fun _ => resp; get_text := fun _ => None |}.

(** One atomic step; [None] when the event is not enabled. *)
Definition step (ev : event) (c : config) : option config :=
  match ev with
  | Spawn family_name =>
      let font_key := font_key_of family_name in
      if decide (is_Some (preview_fonts (shared c) !! font_key)) then Some c
      else Some {| shared := shared c;
                   tasks := tasks c ++ [{| task_family := family_name;
                                           task_key := font_key;
                                           task_pc := AtCheck |}] |}
  | Check i =>
      match tasks c !! i with
      | Some t =>
          match task_pc t with
          | AtCheck =>
              if decide (is_Some (preview_fonts (shared c) !! task_key t))
              then Some (set_pc i t Done c)
              else Some (log_request metadata_url (set_pc i t AwaitMetadata c))
          | _ => None
          end
      | None => None
      end
  | MetadataResponse i resp =>
      match tasks c !! i with
      | Some t =>
          match task_pc t with
          | AwaitMetadata =>
              match find_font_family (metadata_answer resp)
                      (task_family t) None with
              | Some correct_family_name =>
                  if Py.truthy correct_family_name
                  then Some (log_request (css_url correct_family_name)
                               (set_pc i t
                                  (AwaitStylesheet
                                     (css_url correct_family_name)) c))
                  else Some (set_pc i t Done c)
              | None => Some (set_pc i t Done c)
              end
          | _ => None
          end
      | None => None
      end
  | StylesheetResponse i resp =>
      match tasks c !! i with
      | Some t =>
          match task_pc t with
          | AwaitStylesheet _ =>
              match resp with
              | Some css_content =>
                  match all_urls
                          (parse_stylesheet (task_family t) css_content) with
                  | font_url :: _ =>
                      Some (set_pc i t (AtPreviewWrite font_url) c)
                  | [] => Some (set_pc i t Done c)
                  end
              | None => Some (set_pc i t Done c)
              end
          | _ => None
          end
      | None => None
      end
  | WritePreview i =>
      match tasks c !! i with
      | Some t =>
          match task_pc t with
          | AtPreviewWrite font_url =>
              Some {| shared :=
                        {| preview_fonts :=
                             <[task_key t := font_url]>
                               (preview_fonts (shared c));
                           page_fonts := page_fonts (shared c);
                           requests := requests (shared c) |};
                      tasks := tasks (set_pc i t (AtFontsWrite font_url) c) |}
          | _ => None
          end
      | None => None
      end
  | WriteFonts i =>
      match tasks c !! i with
      | Some t =>
          match task_pc t with
          | AtFontsWrite font_url =>
              Some {| shared :=
                        {| preview_fonts := preview_fonts (shared c);
                           page_fonts :=
                             <[task_key t := font_url]>
                               (page_fonts (shared c));
                           requests := requests (shared c) |};
                      tasks := tasks (set_pc i t Done c) |}
          | _ => None
          end
      | None => None
      end
  end.

(** Run a schedule, oldest event first. *)
Fixpoint run (evs : list event) (c : config) : option config :=
  match evs with
  | [] => Some c
  | ev :: evs' =>
      match step ev c with
      | Some c' => run evs' c'
      | None => None
      end
  end.

Definition initial : config := {| shared := initial_session; tasks := [] |}.

(** The configurations the program can be in. *)
Definition reachable (c : config) : Prop :=
  exists evs, run evs initial = Some c.

(** A stylesheet fetch of the task is in flight. *)
Definition fetching (font_key : string) (t : task) : bool :=
  match task_pc t with
  | AwaitStylesheet _ => bool_decide (task_key t = font_key)
  | _ => false
  end.

(** Number of stylesheet fetches in flight for a key. *)
Definition in_flight (font_key : string) (c : config) : nat :=
  length (filter (fun t => fetching font_key t = true) (tasks c)).

(** Number of requests sent so far to a URL. *)
Definition sent (url : string) (c : config) : nat :=
  length (filter (fun u => u = url) (requests (shared c))).

(** The user types two characters while nothing is cached yet: each
    [filter_fonts] lists "Roboto" and starts a task for it; both tasks test
    the key before either has an answer from the network. *)
Definition race_schedule : list event :=
  [Spawn "Roboto"; Spawn "Roboto";
   Check 0; Check 1;
   MetadataResponse 0 (Some (catalog_of [entry "Roboto"]));
   MetadataResponse 1 (Some (catalog_of [entry "Roboto"]))].

(** The event by which task [i] takes its next step when the network
    answers its requests as [net] does; [None] when the task has finished
    or does not exist. *)
Definition next_event (net : network) (i : nat) (c : config) : option event :=
  match tasks c !! i with
  | Some t =>
      match task_pc t with
      | AtCheck => Some (Check i)
      | AwaitMetadata =>
          Some (MetadataResponse i (get_json net metadata_url))
      | AwaitStylesheet url => Some (StylesheetResponse i (get_text net url))
      | AtPreviewWrite _ => Some (WritePreview i)
      | AtFontsWrite _ => Some (WriteFonts i)
      | Done => None
      end
  | None => None
  end.

(** The schedule in which task [i] runs on its own on the network [net]:
    its next events one after the other, at most [fuel] of them, and no
    event of any other task. *)
Fixpoint schedule_alone (net : network) (i : nat) (fuel : nat) (c : config)
  : list event :=
  match fuel with
  | 0 => []
  | S fuel' =>
      match next_event net i c with
      | Some ev =>
          match step ev c with
          | Some c' => ev :: schedule_alone net i fuel' c'
          | None => []
          end
      | None => []
      end
  end.

(** The task has written the key to [page._preview_fonts] and not yet to
    [page.fonts]. *)
Definition between_writes (font_key : string) (t : task) : bool :=
  match task_pc t with
  | AtFontsWrite _ => bool_decide (task_key t = font_key)
  | _ => false
  end.

(** Some task has written the key to [page._preview_fonts] and not yet to
    [page.fonts]. *)
Definition pending (font_key : string) (c : config) : Prop :=
  exists j t, tasks c !! j = Some t /\ between_writes font_key t = true.

(** Every key of [page._preview_fonts] is a key of [page.fonts] as well, or
    a task is about to write it there. *)
Definition registered (c : config) : Prop :=
  forall font_key,
    is_Some (preview_fonts (shared c) !! font_key) ->
    is_Some (page_fonts (shared c) !! font_key) \/ pending font_key c.

(** Every task has run to its end. *)
Definition all_done (c : config) : Prop :=
  Forall (fun t => task_pc t = Done) (tasks c).

(** Two tasks for one family, started before either has cached the key,
    whose stylesheet requests are answered with [css1] and [css2]; the
    second task writes [page._preview_fonts] last and the first task writes
    [page.fonts] last. *)
Definition crossed_writes_schedule (family_name : string)
    (md : gmap string (list (gmap string string))) (css1 css2 : string)
  : list event :=
  [Spawn family_name; Spawn family_name;
   Check 0; Check 1;
   MetadataResponse 0 (Some md); MetadataResponse 1 (Some md);
   StylesheetResponse 0 (Some css1); StylesheetResponse 1 (Some css2);
   WritePreview 0; WritePreview 1;
   WriteFonts 1; WriteFonts 0].

End Threads.

(** ** Any metadata document, and the exceptions that escape (module [Dyn])

    [response.json()] returns whatever JSON value the endpoint sent.  On a
    value that is not of the expected type [find_font_family] raises
    [AttributeError] or [TypeError], and a request may raise an exception
    that is no [requests.RequestException].  [get_font_urls] catches
    neither, so the exception reaches its caller: [new_font] shows its text
    (line 157), [load_font] drops it (line 250).  This module gives
    [find_font_family] and [get_font_urls] on arbitrary JSON values, the
    escaping exception being part of the result. *)

Module Dyn.

(** What [json] decodes a body into.  A dictionary is the list of its items
    in insertion order, each key once. *)
#[local] Unset Elimination Schemes.
Inductive json : Type :=
| JNull                                   (** [None] *)
| JBool (b : bool)
| JInt (n : Z)
| JFloat (x : SpecFloat.spec_float)      (** a binary64 number *)
| JStr (s : string)
| JList (values : list json)
| JDict (items : list (string * json)).
#[local] Set Elimination Schemes.

(** [type(v).__name__] *)
Definition type_name (v : json) : string :=
  match v with
  | JNull => "NoneType"
  | JBool _ => "bool"
  | JInt _ => "int"
  | JFloat _ => "float"
  | JStr _ => "str"
  | JList _ => "list"
  | JDict _ => "dict"
  end.

(** [bool(v)], the test of [if not metadata] *)
Definition truthy (v : json) : bool :=
  match v with
  | JNull => false
  | JBool b => b
  | JInt n => negb (n =? 0)%Z
  | JFloat x => match x with SpecFloat.S754_zero _ => false | _ => true end
  | JStr s => Py.truthy s
  | JList values => negb (bool_decide (values = []))
  | JDict items => negb (bool_decide (items = []))
  end.

(** The result of a call: the value returned, or the exception raised,
    which is kept as its text [str(e)].  Such an exception is never a
    [requests.RequestException]. *)
Inductive result (A : Type) : Type :=
| Return (a : A)
| Raise (message : string).
Arguments Return {A} a.
Arguments Raise {A} message.

#[global] Instance result_ret : MRet result := fun A a => Return a.
#[global] Instance result_bind : MBind result := fun A B f m =>
  match m with
  | Return a => f a
  | Raise message => Raise message
  end.

(** The text of the [AttributeError] raised by [v.attribute]. *)
Definition no_attribute (v : json) (attribute : string) : string :=
  "'" +:+ type_name v +:+ "' object has no attribute '" +:+ attribute +:+ "'".

(** The text of the [TypeError] raised by [for ... in v]. *)
Definition not_iterable (v : json) : string :=
  "'" +:+ type_name v +:+ "' object is not iterable".

(** The value under a key of a dictionary. *)
Fixpoint lookup_item (key : string) (items : list (string * json))
  : option json :=
  match items with
  | [] => None
  | (k, v) :: rest =>
      if decide (k = key) then Some v else lookup_item key rest
  end.

(** [v.get(key, default)]: only a dictionary has the method. *)
Definition get (v : json) (key : string) (default : json) : result json :=
  match v with
  | JDict items => Return (from_option id default (lookup_item key items))
  | _ => Raise (no_attribute v "get")
  end.

(** The values a [for] loop over [v] visits: the members of a list, the
    keys of a dictionary, the characters of a string; no other value can be
    iterated. *)
Definition iter (v : json) : result (list json) :=
  match v with
  | JList values => Return values
  | JDict items => Return (JStr <$> items.*1)
  | JStr s => Return ((fun c => JStr (String c "")) <$> chars s)
  | _ => Raise (not_iterable v)
  end.

(** What a request comes to: the body, a [requests.RequestException]
    (raised by [requests.get], [raise_for_status] or [.json()]), or any
    other exception, with its text. *)
Inductive reply (A : Type) : Type :=
| Body (a : A)
| RequestException
| OtherException (message : string).
Arguments Body {A} a.
Arguments RequestException {A}.
Arguments OtherException {A} message.

Record network := {
  get_json : string -> reply json;
  get_text : string -> reply string
}.

(** [get_google_fonts_metadata()] *)
Definition get_google_fonts_metadata (net : network) : result json :=
  match get_json net metadata_url with
  | Body metadata => Return metadata
  | RequestException => Return JNull
  | OtherException message => Raise message
  end.

(** The first loop of [find_font_family] over the values it visits. *)
Fixpoint exact_pass (search_name_lower : string) (values : list json)
  : result (option string) :=
  match values with
  | [] => Return None
  | font_data :: rest =>
      family_name ← get font_data "family" (JStr "");
      match family_name with
      | JStr family_name =>
          if Py.eqb (Py.lower family_name) search_name_lower
          then Return (Some family_name)
          else exact_pass search_name_lower rest
      | _ => Raise (no_attribute family_name "lower")
      end
  end.

(** The second loop of [find_font_family]. *)
Fixpoint substring_pass (search_name_lower : string) (values : list json)
  : result (option string) :=
  match values with
  | [] => Return None
  | font_data :: rest =>
      family_name ← get font_data "family" (JStr "");
      match family_name with
      | JStr family_name =>
          if Py.contains search_name_lower (Py.lower family_name)
          then Return (Some family_name)
          else substring_pass search_name_lower rest
      | _ => Raise (no_attribute family_name "lower")
      end
  end.

(** [find_font_family(search_name, metadata=None)]; the default argument is
    [JNull]. *)
Definition find_font_family (net : network) (search_name : string)
    (metadata : json) : result (option string) :=
  metadata ← match metadata with
             | JNull => get_google_fonts_metadata net
             | _ => Return metadata
             end;
  if negb (truthy metadata) then Return None
  else
    let search_name_lower := Py.lower search_name in
    family_list ← get metadata "familyMetadataList" (JList []);
    values ← iter family_list;
    found ← exact_pass search_name_lower values;
    match found with
    | Some family_name => Return (Some family_name)
    | None =>
        values ← iter family_list;
        substring_pass search_name_lower values
    end.

(** [get_font_urls(family_name)] *)
Definition get_font_urls (net : network) (family_name : string)
  : result (option font_info) :=
  correct_family_name ← find_font_family net family_name JNull;
  match correct_family_name with
  | None => Return None
  | Some correct_family_name =>
      if negb (Py.truthy correct_family_name) then Return None
      else
        match get_text net (css_url correct_family_name) with
        | Body css_content =>
            Return (Some (parse_stylesheet family_name css_content))
        | RequestException => Return None
        | OtherException message => Raise message
        end
  end.

(** The HTTP requests issued by one call [get_font_urls(family_name)], in
    order. *)
Definition requests_of_get_font_urls (net : network) (family_name : string)
  : list string :=
  metadata_url ::
  match find_font_family net family_name JNull with
  | Return (Some correct_family_name) =>
      if Py.truthy correct_family_name
      then [css_url correct_family_name] else []
  | _ => []
  end.

(** [show_font_options(family_name)].  The dictionary returned by
    [get_font_urls] has three keys, so it is never falsy: the early [return]
    is taken exactly on [None]. *)
Definition show_font_options (net : network) (family_name : string)
  : result (option font_info) :=
  font_data ← get_font_urls net family_name;
  match font_data with
  | Some font_data => Return (Some font_data)
  | None => Return None
  end.

(** A well-formed row, family list and metadata document as JSON values. *)
Definition of_row (fd : gmap string string) : json :=
  JDict (map_to_list (JStr <$> fd)).

Definition of_catalog (md : gmap string (list (gmap string string))) : json :=
  JDict (map_to_list ((fun rows => JList (of_row <$> rows)) <$> md)).

End Dyn.

(** The network of module [Dyn] whose answers are those of [net]: a failed
    request raises [requests.RequestException], and every metadata document
    is well-formed. *)
Definition dyn_network (net : network) : Dyn.network :=
  {| Dyn.get_json := fun url =>
       match get_json net url with
       | Some md => Dyn.Body (Dyn.of_catalog md)
       | None => Dyn.RequestException
       end;
     Dyn.get_text := fun url =>
       match get_text net url with
       | Some css_content => Dyn.Body css_content
       | None => Dyn.RequestException
       end |}.

(** ** The listing helper and the two actions of the page *)

(** [{"family": family_name, "display_name": family_name}] *)
Definition font_dict (family_name : string) : gmap string string :=
  <["family" := family_name]> (<["display_name" := family_name]> ∅).

(** The loop of [list_available_fonts]; [fonts] is the list built so far.
    The test [len(fonts) >= limit] comes after the append, at the end of
    each round. *)
Fixpoint list_fonts_loop (limit : Z) (family_list : list (gmap string string))
    (fonts : list (gmap string string)) : list (gmap string string) :=
  match family_list with
  | [] => fonts
  | font_data :: rest =>
      let family_name := family_of font_data in
      let fonts :=
        if Py.truthy family_name then fonts ++ [font_dict family_name]
        else fonts in
      if (limit <=? Z.of_nat (length fonts))%Z then fonts
      else list_fonts_loop limit rest fonts
  end.

(** [list_available_fonts(limit=50)] *)
Definition list_available_fonts (net : network) (limit : Z)
  : list (gmap string string) :=
  match get_google_fonts_metadata net with
  | None => []
  | Some m =>
      if decide (m = ∅) then []
      else list_fonts_loop limit (family_list_of m) []
  end.

(** [font[key]] for a dictionary built by [list_available_fonts], which
    always has the key. *)
Definition item (font : gmap string string) (key : string) : string :=
  default "" (font !! key).

(** What [main] keeps on the page besides the two font dictionaries. *)
Record page := {
  page_session : session;
  theme_font_family : option string;    (** [page.theme.font_family] *)
  status_text : string                  (** [status_text.value] *)
}.

(** The page as [main] leaves it. *)
Definition initial_page : page :=
  {| page_session := initial_session;
     theme_font_family := None;
     status_text := "Type to search fonts" |}.

Definition log_requests (urls : list string) (s : session) : session :=
  {| preview_fonts := preview_fonts s;
     page_fonts := page_fonts s;
     requests := requests s ++ urls |}.

Definition set_status (status : string) (p : page) : page :=
  {| page_session := page_session p;
     theme_font_family := theme_font_family p;
     status_text := status |}.

(** [new_font(name)], the action of the button "Apply selected font".  The
    status "Loading font: ..." is overwritten before the function returns.
    [get_font_urls] is called on line 144 and, once [page.fonts] has been
    assigned a fresh one-entry dictionary, a second time through
    [show_font_options] on line 153; each call sends its own requests,
    answered by [net1] and by [net2].  An exception that escapes either call
    ends the [try] block in the handler of line 156, which only sets the
    status: what lines 150-152 assigned stays. *)
Definition new_font (net1 net2 : Dyn.network) (name : string) (p : page)
  : page :=
  if negb (Py.truthy (Py.strip name)) then
    set_status "Please enter a font name" p
  else
    let s := log_requests (Dyn.requests_of_get_font_urls net1 name)
               (page_session p) in
    let not_applied status :=
      {| page_session := s;
         theme_font_family := theme_font_family p;
         status_text := status |} in
    match Dyn.get_font_urls net1 name with
    | Dyn.Return (Some font_data) =>
        match all_urls font_data with
        | url :: _ =>
            {| page_session :=
                 log_requests (Dyn.requests_of_get_font_urls net2 name)
                   {| preview_fonts := preview_fonts s;
                      page_fonts := {[ name := url ]};
                      requests := requests s |};
               theme_font_family := Some name;
               status_text :=
                 match Dyn.show_font_options net2 name with
                 | Dyn.Return _ => "Font applied: " +:+ name
                 | Dyn.Raise message => "Error loading font: " +:+ message
                 end |}
        | [] => not_applied ("Could not load font: " +:+ name)
        end
    | Dyn.Return None => not_applied ("Could not load font: " +:+ name)
    | Dyn.Raise message => not_applied ("Error loading font: " +:+ message)
    end.

(** The controls put into [font_list]. *)
Inductive control : Type :=
| Text (value : string) (italic : bool)
| ListTile (title subtitle : string) (font_family : option string).

(** [font_list.controls] and [status_text.value]. *)
Record view := {
  font_list : list control;
  status : string
}.

(** The comprehension of [filter_fonts]:
    [[font for font in fonts if search_lower in font["family"].lower()]] *)
Definition matching_fonts (search_term : string)
    (fonts : list (gmap string string)) : list (gmap string string) :=
  filter (fun font =>
            Py.contains (Py.lower search_term) (Py.lower (item font "family"))
            = true) fonts.

(** One round of the loop over [filtered_fonts[:15]]: the tile of the row
    ([list_tile]), drawn in the preview font when the key is cached, and the
    start of a load task when it is not. *)
Definition list_tile (s : session) (font : gmap string string) : control :=
  let font_key := font_key_of (item font "family") in
  ListTile (item font "display_name") (item font "family")
    (if decide (is_Some (preview_fonts s !! font_key))
     then Some font_key else None).

Definition add_row (acc : list control * Threads.config)
    (font : gmap string string) : list control * Threads.config :=
  let '(controls, c) := acc in
  (controls ++ [list_tile (Threads.shared c) font],
   default c (Threads.step (Threads.Spawn (item font "family")) c)).

(** [filter_fonts(search_term)], run without a step of a load task in
    between; the tasks it starts take their steps in module [Threads]. *)
Definition filter_fonts (net : network) (search_term : string)
    (v : view) (c : Threads.config) : view * Threads.config :=
  if negb (Py.truthy (Py.strip search_term)) then
    ({| font_list := [Text "Type something to search fonts..." true];
        status := status v |}, c)
  else
    let fonts := list_available_fonts net 1000 in
    let c := Threads.log_request metadata_url c in
    let filtered_fonts := matching_fonts search_term fonts in
    match filtered_fonts with
    | [] =>
        ({| font_list :=
              [Text ("No fonts found containing: " +:+ search_term) true];
            status := "No fonts found" |}, c)
    | _ :: _ =>
        let '(controls, c) := foldl add_row ([], c) (take 15 filtered_fonts) in
        ({| font_list := controls;
            status := "Found " +:+ pretty (length filtered_fonts)
                      +:+ " fonts (showing "
                      +:+ pretty (Nat.min 15 (length filtered_fonts))
                      +:+ ")" |}, c)
    end.

(** The most requests a load task can have sent when it is in a given
    state: none before its test, the metadata request after it, the
    stylesheet request as well after the metadata answer. *)
Definition requests_sent_by (p : Threads.pc) : nat :=
  match p with
  | Threads.AtCheck => 0
  | Threads.AwaitMetadata => 1
  | Threads.AwaitStylesheet _ => 2
  | Threads.AtPreviewWrite _ => 2
  | Threads.AtFontsWrite _ => 2
  | Threads.Done => 2
  end.

(** A network whose metadata document has a family list with a row that is
    a number, not an object. *)
Definition untyped_rows : Dyn.network :=
  {| Dyn.get_json := fun _ =>
       Dyn.Body (Dyn.JDict [("familyMetadataList",
                             Dyn.JList [Dyn.JInt 7])]);
     Dyn.get_text := fun _ => Dyn.RequestException |}.

(** The stylesheet of the specification's parsing example. *)
Definition block_example : string :=
  "/* latin */ @font-face { font-weight: 700; font-style: italic; src: url(https://x/y.woff2); }".

(** A stylesheet with a URL outside any font-face block, next to a block
    that has no [src:]. *)
Definition stray_url_example : string :=
  "/* latin */ @font-face { font-weight: 400; } src: url(https://x/z.ttf)".

(** The session after the preview of "Roboto" was loaded from a network that
    serves the example block. *)
Definition roboto_cached : session :=
  request_preview (serve (catalog_of [entry "Roboto"]) block_example)
    "Roboto" initial_session.

(** [a] occurs in [b] as a contiguous substring. *)
Definition occurs_in (a b : string) : Prop :=
  exists pre post, b = pre +:+ a +:+ post.

(** Between the offsets [start] and [stop], the text of [body] holds
    [src:], optional white space, [url(], the non-empty text [url] free of
    closing parentheses, and [)]. *)
Definition url_occurrence_at (start stop : nat) (url body : string) : Prop :=
  exists pre ws post,
    chars body
    = pre ++ chars "src:" ++ ws ++ chars "url(" ++ chars url ++ chars ")" ++ post
    /\ length pre = start
    /\ stop = start + 4 + length ws + 4 + length (chars url) + 1
    /\ Forall (fun c => Py.isspace c = true) ws
    /\ url <> ""
    /\ Forall (fun c => c <> ")"%char) (chars url).

(** [src: url(url)] occurs somewhere in the text of [body]. *)
Definition url_occurrence (url body : string) : Prop :=
  exists start stop, url_occurrence_at start stop url body.

(** * Properties *)

(** ** Strings *)

Lemma lower_empty_iff (s : string) : Py.lower s = "" <-> s = "".
Proof. destruct s; simpl; split; intros H; congruence. Qed.

Lemma prefix_empty (s : string) : String.prefix "" s = true.
Proof. destruct s; reflexivity. Qed.

Lemma contains_empty (s : string) : Py.contains "" s = true.
Proof. destruct s; reflexivity. Qed.

Lemma py_eqb_eq (a b : string) : Py.eqb a b = true <-> a = b.
Proof. apply String.eqb_eq. Qed.

Lemma py_eqb_neq (a b : string) : Py.eqb a b = false <-> a <> b.
Proof. apply String.eqb_neq. Qed.

(** ** The family resolver *)

Section resolver.
Context (net : network).

Lemma catalog_of_nonempty (rows : list (gmap string string)) :
  catalog_of rows <> ∅.
Proof. apply insert_non_empty. Qed.

Lemma family_list_of_catalog (rows : list (gmap string string)) :
  family_list_of (catalog_of rows) = rows.
Proof. unfold family_list_of, catalog_of. by rewrite lookup_singleton_eq. Qed.

Lemma family_of_entry (n : string) : family_of (entry n) = n.
Proof. unfold family_of, entry. by rewrite lookup_singleton_eq. Qed.

(** With a catalog passed in, the result is that of the two loops. *)
Lemma find_font_family_catalog (q : string) (rows : list (gmap string string)) :
  find_font_family net q (Some (catalog_of rows)) =
  match exact_pass (Py.lower q) rows with
  | Some n => Some n
  | None => substring_pass (Py.lower q) rows
  end.
Proof.
  unfold find_font_family.
  destruct (decide (catalog_of rows = ∅)) as [E|_].
  - by apply catalog_of_nonempty in E.
  - by rewrite family_list_of_catalog.
Qed.

(** Each loop returns the first name, in catalog order, that passes its
    test. *)
Lemma exact_pass_find (ql : string) (rows : list (gmap string string)) :
  exact_pass ql rows =
  snd <$> list_find (fun n => Py.lower n = ql) (family_of <$> rows).
Proof.
  induction rows as [|fd rows IH]; simpl; [done|].
  destruct (Py.eqb (Py.lower (family_of fd)) ql) eqn:E.
  - apply py_eqb_eq in E. by rewrite decide_True.
  - apply py_eqb_neq in E. rewrite decide_False by done.
    rewrite IH. by destruct (list_find _ _) as [[??]|].
Qed.

Lemma substring_pass_find (ql : string) (rows : list (gmap string string)) :
  substring_pass ql rows =
  snd <$> list_find (fun n => Py.contains ql (Py.lower n) = true)
            (family_of <$> rows).
Proof.
  induction rows as [|fd rows IH]; simpl; [done|].
  destruct (Py.contains ql (Py.lower (family_of fd))) eqn:E.
  - by rewrite decide_True.
  - rewrite decide_False by congruence.
    rewrite IH. by destruct (list_find _ _) as [[??]|].
Qed.

Lemma exact_pass_None (ql : string) (rows : list (gmap string string)) :
  exact_pass ql rows = None <->
  forall fd, fd ∈ rows -> Py.lower (family_of fd) <> ql.
Proof.
  induction rows as [|fd rows IH]; simpl.
  - split; [intros _ fd H; by apply elem_of_nil in H | done].
  - destruct (Py.eqb (Py.lower (family_of fd)) ql) eqn:E.
    + apply py_eqb_eq in E. split; [done|].
      intros H. exfalso. apply (H fd); [left | done].
    + apply py_eqb_neq in E. rewrite IH. split.
      * intros H fd' [->|Hin]%elem_of_cons; auto.
      * intros H fd' Hin. apply H. by right.
Qed.


End resolver.

(** C1.  [resolve] makes two case-insensitive passes over the catalog: the
    result is the first name, in catalog order, that equals the query
    ignoring case, wherever it stands in the catalog; only when there is no
    such name is it the first name that contains the query ignoring case.
    So an exact match wins over a substring match that stands earlier: with
    the catalog ["Noto Sans", "Noto"] the query "Noto" resolves to "Noto". *)
Theorem resolve_two_pass (net : network) (q : string)
    (rows : list (gmap string string)) :
  find_font_family net q (Some (catalog_of rows)) =
    match list_find (fun n => Py.lower n = Py.lower q) (family_of <$> rows) with
    | Some (_, n) => Some n
    | None =>
        snd <$> list_find (fun n => Py.contains (Py.lower q) (Py.lower n) = true)
                  (family_of <$> rows)
    end
  /\ find_font_family net "Noto"
       (Some (catalog_of [entry "Noto Sans"; entry "Noto"])) = Some "Noto".
Proof.
  split.
  - rewrite find_font_family_catalog, exact_pass_find, substring_pass_find.
    by destruct (list_find _ _) as [[??]|].
  - rewrite find_font_family_catalog. vm_compute. reflexivity.
Qed.




(** C10, as stated, fails: a later row with an empty name is an exact match
    for the empty query and wins over the first row. *)
Lemma resolve_empty_query_fails :
  family_of (entry "Roboto") <> ""
  /\ find_font_family no_network ""
       (Some (catalog_of [entry "Roboto"; entry ""])) = Some ""
  /\ find_font_family no_network ""
       (Some (catalog_of [entry "Roboto"; entry ""]))
     <> Some (family_of (entry "Roboto")).
Proof.
  split; [vm_compute; intros H; discriminate H|].
  split; [vm_compute; reflexivity|].
  vm_compute. intros H. discriminate H.
Qed.

(** C10, amended.  For the empty query and every non-empty catalog in which
    no row has an empty (or missing) name, [resolve] returns the name of the
    first row, because the empty string passes the substring test against
    every name; and [resolve("")] is [None] only when the catalog is
    unavailable or its family list is empty. *)
Theorem resolve_empty_query (net : network) :
  (forall r rest,
     (forall fd, fd ∈ r :: rest -> family_of fd <> "") ->
     find_font_family net "" (Some (catalog_of (r :: rest)))
     = Some (family_of r))
  /\ (forall md,
        find_font_family net "" md = None <->
        match (match md with
               | None => get_google_fonts_metadata net
               | Some m => Some m
               end) with
        | None => True
        | Some m => family_list_of m = []
        end).
Proof.
  split.
  - intros r rest Hne. rewrite find_font_family_catalog. simpl Py.lower.
    assert (exact_pass "" (r :: rest) = None) as ->.
    { apply exact_pass_None. intros fd Hfd E.
      apply (proj1 (lower_empty_iff _)) in E. by apply (Hne fd). }
    simpl. by rewrite contains_empty.
  - intros md. unfold find_font_family.
    destruct (match md with
              | None => get_google_fonts_metadata net
              | Some m => Some m
              end) as [m|]; [|done].
    destruct (decide (m = ∅)) as [->|_].
    + unfold family_list_of. by rewrite lookup_empty.
    + simpl Py.lower. destruct (family_list_of m) as [|fd fl]; [done|].
      split; [|done]. intros H. exfalso.
      destruct (exact_pass "" (fd :: fl)); [done|].
      simpl in H. by rewrite contains_empty in H.
Qed.

Lemma resolve_empty_query_witness :
  find_font_family no_network ""
    (Some (catalog_of (entry "Roboto" :: [entry "Noto"])))
  = Some (family_of (entry "Roboto")).
Proof.
  apply (proj1 (resolve_empty_query no_network)).
  intros fd Hfd.
  apply elem_of_cons in Hfd as [->|Hfd].
  - vm_compute. intros H. discriminate H.
  - apply elem_of_cons in Hfd as [->|Hfd].
    + vm_compute. intros H. discriminate H.
    + by apply elem_of_nil in Hfd.
Defined.

(** ** The stylesheet fetcher *)

Lemma get_font_urls_Some (net : network) (q : string) (info : font_info) :
  get_font_urls net q = Some info <->
  exists c css_content,
    find_font_family net q None = Some c
    /\ Py.truthy c = true
    /\ get_text net (css_url c) = Some css_content
    /\ info = parse_stylesheet q css_content.
Proof.
  unfold get_font_urls. split.
  - destruct (find_font_family net q None) as [c|]; [|done].
    destruct (Py.truthy c) eqn:Ht; [|done]. simpl.
    destruct (get_text net (css_url c)) as [css|] eqn:Hc; [|done].
    intros [= <-]. by exists c, css.
  - intros (c & css & -> & -> & Hc & ->). simpl. by rewrite Hc.
Qed.

(** C2, as stated, fails: the [family] field is the query as typed, not the
    canonical name, for a case-mismatched and for a partial query. *)
Lemma family_field_not_canonical :
  let net := serve (catalog_of [entry "Roboto"]) "" in
  find_font_family net "roboto" None = Some "Roboto"
  /\ (family <$> get_font_urls net "roboto") = Some "roboto"
  /\ find_font_family net "Rob" None = Some "Roboto"
  /\ (family <$> get_font_urls net "Rob") = Some "Rob"
  /\ (family <$> get_font_urls net "roboto") <> Some "Roboto".
Proof.
  repeat split; try (vm_compute; reflexivity).
  vm_compute. intros H. discriminate H.
Qed.

(** C2, amended.  For every query for which resolution and the stylesheet
    fetch succeed, the [family] field of the result equals the query passed
    to [get_font_urls]; the canonical name is the one the stylesheet was
    requested for. *)
Theorem family_field_is_query (net : network) (q : string) (info : font_info) :
  get_font_urls net q = Some info ->
  family info = q
  /\ exists c css_content,
       find_font_family net q None = Some c
       /\ get_text net (css_url c) = Some css_content
       /\ info = parse_stylesheet q css_content.
Proof.
  intros (c & css & Hc & _ & Hcss & ->)%get_font_urls_Some.
  split; [done|]. by exists c, css.
Qed.

Lemma family_field_is_query_witness :
  family (parse_stylesheet "rob" block_example) = "rob"
  /\ exists c css_content,
       find_font_family (serve (catalog_of [entry "Roboto"]) block_example)
         "rob" None = Some c
       /\ get_text (serve (catalog_of [entry "Roboto"]) block_example)
            (css_url c) = Some css_content
       /\ parse_stylesheet "rob" block_example
          = parse_stylesheet "rob" css_content.
Proof.
  apply (family_field_is_query
           (serve (catalog_of [entry "Roboto"]) block_example) "rob").
  reflexivity.
Defined.

(** ** Parsing one block *)

Lemma fonts_block_example (family_name : string) :
  fonts (parse_stylesheet family_name block_example)
  = [face_dict (PStr "latin") (PStr "700") (PStr "italic")
       (PStr "https://x/y.woff2") (PStr "woff2")].
Proof. vm_compute. reflexivity. Qed.

(** C3, as stated, fails: the weight stored in the record is the matched
    text, the string "700", not the integer 700. *)
Lemma parse_block_weight_not_integer :
  fonts (parse_stylesheet "x" block_example)
  <> [face_dict (PStr "latin") (PInt 700) (PStr "italic")
        (PStr "https://x/y.woff2") (PStr "woff2")].
Proof.
  intros H.
  apply (f_equal (fun l => l !! 0%nat ≫= (fun d : gmap string pyval => d !! "weight"))) in H.
  vm_compute in H. discriminate H.
Qed.

(** C3, amended.  Parsing the stylesheet that holds exactly the block of the
    example yields exactly one font-face record, with subset "latin", weight
    "700" (the matched digits, a string), style "italic", url
    "https://x/y.woff2" and format "woff2". *)
Theorem parse_block_example (family_name : string) :
  fonts (parse_stylesheet family_name block_example)
  = [face_dict (PStr "latin") (PStr "700") (PStr "italic")
       (PStr "https://x/y.woff2") (PStr "woff2")].
Proof. exact (fonts_block_example family_name). Qed.

(** ** The format derived from a URL *)

Lemma prefix_spec (a b : string) :
  String.prefix a b = true <-> exists post, b = a +:+ post.
Proof.
  revert b. induction a as [|c a IH]; intros b.
  - rewrite prefix_empty. split; [|done]. intros _. by exists b.
  - destruct b as [|c' b]; simpl.
    + split; [done|]. intros [post H]. discriminate H.
    + destruct (ascii_dec c c') as [->|Hne].
      * rewrite IH. split; intros [post H]; exists post.
        -- by rewrite H.
        -- by injection H.
      * split; [done|]. intros [post H]. injection H as H1 H2. congruence.
Qed.

Lemma contains_nil (a : string) : Py.contains a "" = String.prefix a "".
Proof. unfold Py.contains. by destruct (String.prefix a ""). Qed.

Lemma contains_cons (a : string) (c : ascii) (b : string) :
  Py.contains a (String c b) =
  if String.prefix a (String c b) then true else Py.contains a b.
Proof. reflexivity. Qed.

Lemma contains_spec (a b : string) :
  Py.contains a b = true <-> occurs_in a b.
Proof.
  unfold occurs_in. induction b as [|c b IH].
  - rewrite contains_nil, prefix_spec. split.
    + intros [post E]. by exists "", post.
    + intros (pre & post & H). exists post.
      destruct pre as [|c pre]; [done|discriminate H].
  - rewrite contains_cons.
    destruct (String.prefix a (String c b)) eqn:E.
    + split; [|done]. intros _. apply prefix_spec in E as [post E].
      by exists "", post.
    + rewrite IH. split.
      * intros (pre & post & ->). by exists (String c pre), post.
      * intros (pre & post & H). destruct pre as [|c' pre].
        -- exfalso. assert (String.prefix a (String c b) = true) as E';
             [|congruence].
           apply prefix_spec. by exists post.
        -- injection H as _ ->. by exists pre, post.
Qed.

(** The three cases of [format_type], by what the URL contains. *)
Lemma format_type_cases (url : string) :
  (occurs_in ".woff2" url -> format_type url = "woff2")
  /\ (~ occurs_in ".woff2" url -> occurs_in ".woff" url ->
      format_type url = "woff")
  /\ (~ occurs_in ".woff" url -> format_type url = "ttf").
Proof.
  unfold format_type. rewrite <- !contains_spec.
  destruct (Py.contains ".woff2" url) eqn:E2;
    destruct (Py.contains ".woff" url) eqn:E1; repeat split; try done.
  exfalso. apply contains_spec in E2 as (pre & post & ->).
  assert (Py.contains ".woff" (pre +:+ ".woff2" +:+ post) = true) as E;
    [|congruence].
  apply contains_spec. exists pre, ("2" +:+ post).
  f_equal.
Qed.

Lemma face_dict_lookup_url (subset weight style url format : pyval) :
  face_dict subset weight style url format !! "url" = Some url.
Proof. unfold face_dict. by simplify_map_eq. Qed.

Lemma face_dict_lookup_format (subset weight style url format : pyval) :
  face_dict subset weight style url format !! "format" = Some format.
Proof. unfold face_dict. by simplify_map_eq. Qed.

(** Every record appended to [font_faces] carries a string URL and the format
    computed from that URL. *)
Lemma font_face_of_Some (m : string * string) (f : gmap string pyval) :
  font_face_of m = Some f ->
  exists subset weight style url,
    f = face_dict (PStr subset) (PStr weight) (PStr style) (PStr url)
          (PStr (format_type url))
    /\ exists url_match,
         Re.search url_pattern m.2 = Some url_match
         /\ url = Re.group m.2 url_match 1.
Proof.
  destruct m as [subset content]. unfold font_face_of.
  destruct (Re.search url_pattern content) as [um|] eqn:E; [|done].
  intros [= <-]. eexists _, _, _, _. split; [reflexivity|].
  exists um. by split.
Qed.

Lemma elem_of_fonts (family_name css_content : string) (f : gmap string pyval) :
  f ∈ fonts (parse_stylesheet family_name css_content) <->
  exists m, m ∈ face_matches css_content /\ font_face_of m = Some f.
Proof. unfold parse_stylesheet. simpl. apply list_elem_of_omap. Qed.

(** C6.  The format of a record is a function of its URL alone: "woff2" when
    the URL contains ".woff2", otherwise "woff" when it contains ".woff",
    otherwise "ttf"; so two records with the same URL, from whatever
    stylesheets, carry the same format. *)
Theorem format_function_of_url (family1 css1 family2 css2 : string)
    (f1 f2 : gmap string pyval) :
  f1 ∈ fonts (parse_stylesheet family1 css1) ->
  f2 ∈ fonts (parse_stylesheet family2 css2) ->
  f1 !! "url" = f2 !! "url" ->
  f1 !! "format" = f2 !! "format"
  /\ exists url,
       f1 !! "url" = Some (PStr url)
       /\ f1 !! "format" = Some (PStr (format_type url))
       /\ (occurs_in ".woff2" url -> format_type url = "woff2")
       /\ (~ occurs_in ".woff2" url -> occurs_in ".woff" url ->
           format_type url = "woff")
       /\ (~ occurs_in ".woff" url -> format_type url = "ttf").
Proof.
  intros (m1 & _ & H1)%elem_of_fonts (m2 & _ & H2)%elem_of_fonts.
  apply font_face_of_Some in H1 as (s1 & w1 & t1 & u1 & -> & _).
  apply font_face_of_Some in H2 as (s2 & w2 & t2 & u2 & -> & _).
  rewrite !face_dict_lookup_url, !face_dict_lookup_format.
  intros [= ->]. split; [done|].
  exists u2. repeat split; try apply format_type_cases.
Qed.

Lemma format_function_of_url_witness :
  let f := face_dict (PStr "latin") (PStr "700") (PStr "italic")
             (PStr "https://x/y.woff2") (PStr "woff2") in
  f !! "format" = f !! "format"
  /\ exists url,
       f !! "url" = Some (PStr url)
       /\ f !! "format" = Some (PStr (format_type url))
       /\ (occurs_in ".woff2" url -> format_type url = "woff2")
       /\ (~ occurs_in ".woff2" url -> occurs_in ".woff" url ->
           format_type url = "woff")
       /\ (~ occurs_in ".woff" url -> format_type url = "ttf").
Proof.
  apply (format_function_of_url "a" block_example "b" block_example).
  - rewrite fonts_block_example. apply list_elem_of_here.
  - rewrite fonts_block_example. apply list_elem_of_here.
  - reflexivity.
Defined.

(** ** The matcher *)

Section matcher.
Context (cls : ascii -> bool) (greedy : bool)
  (k : list ascii -> nat -> option (nat * Re.spans)).

(** A successful repetition either stops here or takes one more character. *)
Lemma rep_Some_cases (lo : nat) (s : list ascii) (pos : nat)
    (r : nat * Re.spans) :
  Re.rep cls greedy k lo s pos = Some r ->
  (lo = 0 /\ k s pos = Some r)
  \/ (exists c s', s = c :: s' /\ cls c = true
        /\ Re.rep cls greedy k (pred lo) s' (S pos) = Some r).
Proof.
  destruct s as [|c s']; simpl; intros H.
  - left. destruct greedy, lo; try discriminate H;
      destruct (k [] pos); by simplify_eq.
  - destruct (cls c) eqn:Hc.
    + destruct greedy, lo; simpl in *;
        destruct (Re.rep cls _ k _ s' (S pos)) eqn:Hr;
        try destruct (k (c :: s') pos) eqn:Hk; simplify_eq; eauto 8.
    + left. destruct greedy, lo; try discriminate H;
        destruct (k (c :: s') pos); by simplify_eq.
Qed.

Lemma rep_stop (s : list ascii) (pos : nat) :
  is_Some (k s pos) -> is_Some (Re.rep cls greedy k 0 s pos).
Proof.
  intros [r Hr]. destruct s as [|c s']; simpl.
  - rewrite Hr. by destruct greedy.
  - rewrite Hr. destruct greedy; [|done].
    destruct (cls c); [|done]. by destruct (Re.rep _ _ _ _ _ _).
Qed.

Lemma rep_more (lo : nat) (c : ascii) (s' : list ascii) (pos : nat) :
  cls c = true ->
  is_Some (Re.rep cls greedy k (pred lo) s' (S pos)) ->
  is_Some (Re.rep cls greedy k lo (c :: s') pos).
Proof.
  intros Hc [r Hr]. simpl. rewrite Hc, Hr. destruct greedy; [done|].
  destruct lo; [|done]. by destruct (k (c :: s') pos).
Qed.

(** What a successful repetition consumed. *)
Lemma rep_inv (lo : nat) (s : list ascii) (pos : nat) (r : nat * Re.spans) :
  Re.rep cls greedy k lo s pos = Some r ->
  exists j, lo <= j /\ j <= length s
    /\ Forall (fun c => cls c = true) (take j s)
    /\ k (drop j s) (pos + j) = Some r.
Proof.
  revert lo pos. induction s as [|c s IH]; intros lo pos H;
    apply rep_Some_cases in H as [[-> H]|(c' & s' & E & Hc & H)].
  - exists 0. rewrite Nat.add_0_r. simpl. by repeat split.
  - discriminate E.
  - exists 0. rewrite Nat.add_0_r. simpl. split_and!; [lia|lia|constructor|done].
  - injection E as <- <-. apply IH in H as (j & Hlo & Hlen & Hall & H).
    exists (S j). simpl. replace (pos + S j) with (S pos + j) by lia.
    split_and!; [lia|lia| |done]. by constructor.
Qed.

(** A run of the class followed by a text on which the continuation
    succeeds is matched by the repetition. *)
Lemma rep_complete (lo : nat) (ws rest : list ascii) (pos : nat) :
  Forall (fun c => cls c = true) ws ->
  lo <= length ws ->
  is_Some (k rest (pos + length ws)) ->
  is_Some (Re.rep cls greedy k lo (ws ++ rest) pos).
Proof.
  revert lo pos. induction ws as [|c ws IH]; intros lo pos Hall Hlo Hk.
  - simpl in *. rewrite Nat.add_0_r in Hk.
    assert (lo = 0) as -> by lia. by apply rep_stop.
  - apply Forall_cons in Hall as [Hc Hall]. simpl in *.
    apply rep_more; [done|]. apply IH; [done|lia|].
    by replace (S pos + length ws) with (pos + S (length ws)) by lia.
Qed.

End matcher.

(** Literal characters at the head of a pattern. *)
Lemma match_here_lit (w : list ascii) (p : Re.pattern) (caps : Re.spans)
    (s : list ascii) (pos : nat) (r : nat * Re.spans) :
  Re.match_here ((Re.Chr <$> w) ++ p) caps s pos = Some r <->
  exists s', s = w ++ s' /\ Re.match_here p caps s' (pos + length w) = Some r.
Proof.
  revert s pos. induction w as [|c w IH]; intros s pos.
  - simpl. rewrite Nat.add_0_r. split; [intros H; by exists s|].
    by intros (s' & -> & H).
  - change ((Re.Chr <$> c :: w) ++ p) with (Re.Chr c :: (Re.Chr <$> w) ++ p).
    destruct s as [|c' s]; simpl.
    + split; [done|]. intros (s' & E & _). discriminate E.
    + destruct (Ascii.eqb_spec c' c) as [->|Hne].
      * rewrite IH. replace (pos + S (length w)) with (S pos + length w) by lia.
        split; intros (s' & E & H); exists s'; split; try done.
        -- by rewrite E.
        -- by injection E.
      * split; [done|]. intros (s' & E & _). injection E as E _. congruence.
Qed.

Lemma match_here_rep (cls : ascii -> bool) (lo : nat) (greedy : bool)
    (p : Re.pattern) (caps : Re.spans) (s : list ascii) (pos : nat) :
  Re.match_here (Re.Rep cls lo greedy :: p) caps s pos
  = Re.rep cls greedy (Re.match_here p caps) lo s pos.
Proof. reflexivity. Qed.

(** The leftmost match starts at some offset of the subject. *)
Lemma search_from_inv (p : Re.pattern) (s : list ascii) (pos : nat)
    (r : nat * Re.spans) :
  Re.search_from p s pos = Some r ->
  exists i, i <= length s /\ Re.match_here p ∅ (drop i s) (pos + i) = Some r.
Proof.
  revert pos. induction s as [|c s IH]; intros pos; simpl.
  - destruct (Re.match_here p ∅ [] pos) eqn:E; [|done].
    intros [= <-]. exists 0. by rewrite Nat.add_0_r.
  - destruct (Re.match_here p ∅ (c :: s) pos) eqn:E.
    + intros [= <-]. exists 0. rewrite Nat.add_0_r. split; [lia|done].
    + intros (i & Hi & H)%IH. exists (S i). simpl.
      replace (pos + S i) with (S pos + i) by lia. split; [lia|done].
Qed.

Lemma search_from_complete (p : Re.pattern) (s : list ascii) (pos i : nat) :
  i <= length s ->
  is_Some (Re.match_here p ∅ (drop i s) (pos + i)) ->
  is_Some (Re.search_from p s pos).
Proof.
  revert pos i. induction s as [|c s IH]; intros pos i Hi Hm.
  - simpl in *. assert (i = 0) as -> by lia. rewrite Nat.add_0_r in Hm.
    simpl in Hm. destruct Hm as [r ->]. done.
  - simpl. destruct (Re.match_here p ∅ (c :: s) pos) eqn:E; [done|].
    destruct i as [|i].
    + rewrite Nat.add_0_r in Hm. simpl in Hm. rewrite E in Hm.
      by destruct Hm.
    + simpl in *. apply (IH (S pos) i); [lia|].
      by replace (S pos + i) with (pos + S i) by lia.
Qed.

(** Every match reported by the scan is a match at some offset. *)
Lemma findall_from_inv (p : Re.pattern) (s : list ascii) (pos skip : nat)
    (caps : Re.spans) :
  caps ∈ Re.findall_from p s pos skip ->
  exists i e, i <= length s
    /\ Re.match_here p ∅ (drop i s) (pos + i) = Some (e, caps).
Proof.
  revert pos skip. induction s as [|c s IH]; intros pos skip; simpl.
  - destruct skip; [|by intros ?%elem_of_nil].
    destruct (Re.match_here p ∅ [] pos) as [[e caps']|] eqn:E;
      [|by intros ?%elem_of_nil].
    intros ->%list_elem_of_singleton. exists 0, e.
    by rewrite Nat.add_0_r.
  - assert (forall k, caps ∈ Re.findall_from p s (S pos) k ->
              exists i e, i <= S (length s)
                /\ Re.match_here p ∅ (drop i (c :: s)) (pos + i)
                   = Some (e, caps)) as Hrec.
    { intros k (i & e & Hi & H)%IH. exists (S i), e. simpl.
      replace (pos + S i) with (S pos + i) by lia. split; [lia|done]. }
    destruct skip as [|skip]; [|apply Hrec].
    destruct (Re.match_here p ∅ (c :: s) pos) as [[e caps']|] eqn:E;
      [|apply Hrec].
    intros [->|H]%elem_of_cons; [|by apply Hrec in H].
    exists 0, e. rewrite Nat.add_0_r. split; [lia|done].
Qed.

(** When the pattern matches somewhere, the scan reports a match. *)
Lemma findall_from_nonempty (p : Re.pattern) (s : list ascii) (pos i : nat) :
  i <= length s ->
  is_Some (Re.match_here p ∅ (drop i s) (pos + i)) ->
  Re.findall_from p s pos 0 <> [].
Proof.
  revert pos i. induction s as [|c s IH]; intros pos i Hi Hm.
  - simpl in *. assert (i = 0) as -> by lia. rewrite Nat.add_0_r in Hm.
    simpl in Hm. destruct Hm as [[e caps] ->]. done.
  - simpl. destruct (Re.match_here p ∅ (c :: s) pos) as [[e caps]|] eqn:E;
      [done|].
    destruct i as [|i].
    + rewrite Nat.add_0_r in Hm. simpl in Hm. rewrite E in Hm.
      by destruct Hm.
    + simpl in *. apply (IH (S pos) i); [lia|].
      by replace (S pos + i) with (pos + S i) by lia.
Qed.

Lemma match_here_lit_is_Some (w : list ascii) (p : Re.pattern)
    (caps : Re.spans) (s' : list ascii) (pos : nat) :
  is_Some (Re.match_here p caps s' (pos + length w)) ->
  is_Some (Re.match_here ((Re.Chr <$> w) ++ p) caps (w ++ s') pos).
Proof.
  intros [r Hr]. exists r. apply match_here_lit. by exists s'.
Qed.

(** ** The pattern [src:\s*url\(([^)]+)\)] *)

Lemma url_pattern_shape :
  url_pattern
  = (Re.Chr <$> chars "src:")
    ++ Re.Rep Py.isspace 0 true
    :: ((Re.Chr <$> chars "url(")
        ++ Re.Open 1 :: Re.Rep (Re.not_char ")") 1 true :: Re.Close 1
        :: ((Re.Chr <$> chars ")") ++ [])).
Proof. reflexivity. Qed.

Lemma not_char_true (c x : ascii) : Re.not_char c x = true <-> x <> c.
Proof.
  unfold Re.not_char. destruct (Ascii.eqb_spec x c); simpl; split; congruence.
Qed.

(** What the pattern matched, and where group 1 lies. *)
Lemma url_match_inv (caps : Re.spans) (s : list ascii) (pos e : nat)
    (caps' : Re.spans) :
  Re.match_here url_pattern caps s pos = Some (e, caps') ->
  exists ws u rest,
    s = chars "src:" ++ ws ++ chars "url(" ++ u ++ chars ")" ++ rest
    /\ Forall (fun c => Py.isspace c = true) ws
    /\ u <> []
    /\ Forall (fun c => c <> ")"%char) u
    /\ caps' !! 1 = Some (pos + 4 + length ws + 4,
                          pos + 4 + length ws + 4 + length u)
    /\ e = pos + 4 + length ws + 4 + length u + 1.
Proof.
  rewrite url_pattern_shape. intros H.
  apply match_here_lit in H as (s1 & -> & H).
  rewrite match_here_rep in H.
  apply rep_inv in H as (j & _ & Hj & Hws & H).
  apply match_here_lit in H as (s2 & E2 & H).
  cbn [Re.match_here] in H.
  apply rep_inv in H as (j2 & Hlo & Hj2 & Hu & H).
  cbn [Re.match_here] in H. rewrite lookup_insert_eq in H.
  apply match_here_lit in H as (s3 & E3 & H).
  cbn [Re.match_here] in H. injection H as <- <-.
  exists (take j s1), (take j2 s2), s3.
  rewrite <- E3, take_drop, <- E2, take_drop.
  rewrite !length_take_le by done.
  split_and!; [done|done| | | |done].
  - destruct s2; [simpl in *; lia|]. destruct j2; [lia|done].
  - eapply Forall_impl; [exact Hu|]. intros c Hc. by apply not_char_true.
  - by rewrite lookup_insert_eq.
Qed.

(** The pattern matches wherever the text has the shape it describes. *)
Lemma url_match_complete (caps : Re.spans) (ws u rest : list ascii)
    (pos : nat) :
  Forall (fun c => Py.isspace c = true) ws ->
  u <> [] ->
  Forall (fun c => c <> ")"%char) u ->
  is_Some (Re.match_here url_pattern caps
             (chars "src:" ++ ws ++ chars "url(" ++ u ++ chars ")" ++ rest)
             pos).
Proof.
  intros Hws Hne Hu. rewrite url_pattern_shape.
  apply match_here_lit_is_Some. rewrite match_here_rep.
  apply rep_complete; [done|lia|].
  apply match_here_lit_is_Some. cbn [Re.match_here].
  apply rep_complete.
  - eapply Forall_impl; [exact Hu|]. intros c Hc. by apply not_char_true.
  - destruct u; [done|simpl; lia].
  - cbn [Re.match_here]. apply match_here_lit_is_Some. by eexists.
Qed.

(** ** Slices of the subject *)

Lemma chars_of_list (l : list ascii) : chars (string_of_list_ascii l) = l.
Proof. apply list_ascii_of_string_of_list_ascii. Qed.

Lemma chars_inj (a b : string) : chars a = chars b -> a = b.
Proof.
  intros H. rewrite <- (string_of_list_ascii_of_string a),
    <- (string_of_list_ascii_of_string b). unfold chars in H. by rewrite H.
Qed.

Lemma chars_slice (text : string) (span : nat * nat) :
  chars (Re.slice text span)
  = take (span.2 - span.1) (drop span.1 (chars text)).
Proof. unfold Re.slice. by rewrite chars_of_list. Qed.

(** A slice sits inside its subject. *)
Lemma slice_inside (text : string) (span : nat * nat) :
  exists pre post, chars text = pre ++ chars (Re.slice text span) ++ post.
Proof.
  exists (take span.1 (chars text)),
         (drop (span.2 - span.1) (drop span.1 (chars text))).
  by rewrite chars_slice, take_drop, take_drop.
Qed.

Lemma url_occurrence_slice (url text : string) (span : nat * nat) :
  url_occurrence url (Re.slice text span) -> url_occurrence url text.
Proof.
  intros (i & stop & pre & ws & post & E & Hi & Hstop & Hws & Hne & Hu).
  destruct (slice_inside text span) as (pre' & post' & E').
  eexists (length (pre' ++ pre)), _, (pre' ++ pre), ws, (post ++ post').
  split_and!; try done.
  rewrite E', E. by rewrite <- !(assoc_L (++)).
Qed.

(** Group 1 of a match of the URL pattern at offset [i]. *)
Lemma url_group (text : string) (i : nat) (caps : gmap nat (nat * nat))
    (ws u rest : list ascii) :
  drop i (chars text)
  = chars "src:" ++ ws ++ chars "url(" ++ u ++ chars ")" ++ rest ->
  caps !! 1 = Some (i + 4 + length ws + 4, i + 4 + length ws + 4 + length u) ->
  Re.group text caps 1 = string_of_list_ascii u.
Proof.
  intros E Hcap. unfold Re.group. rewrite Hcap. simpl. apply chars_inj.
  rewrite chars_slice, chars_of_list. simpl.
  replace (i + 4 + length ws + 4) with (i + (4 + length ws + 4)) by lia.
  rewrite <- drop_drop, E.
  replace (i + (4 + length ws + 4) + length u - (i + (4 + length ws + 4)))
    with (length u) by lia.
  change (chars "src:") with ("s" :: "r" :: "c" :: ":" :: [])%char.
  change (4 + length ws + 4) with (S (S (S (S (length ws + 4))))).
  simpl drop. rewrite drop_app_add'; [|done].
  change (chars "url(") with ("u" :: "r" :: "l" :: "(" :: [])%char.
  simpl drop. by rewrite drop_0, take_app_length.
Qed.

(** A match of the URL pattern at offset [i] of [text], ending at [e], is an
    occurrence between [i] and [e] of the URL it captured. *)
Lemma url_match_at (text : string) (i e : nat) (caps : gmap nat (nat * nat)) :
  i <= length (chars text) ->
  Re.match_here url_pattern ∅ (drop i (chars text)) i = Some (e, caps) ->
  url_occurrence_at i e (Re.group text caps 1) text.
Proof.
  intros Hi H.
  apply url_match_inv in H
    as (ws & u & rest & E & Hws & Hne & Hu & Hcap & ->).
  rewrite (url_group text i caps ws u rest E Hcap).
  exists (take i (chars text)), ws, rest.
  rewrite chars_of_list, <- E, take_drop, length_take_le by done.
  split_and!; try done.
  intros Hs. apply (f_equal chars) in Hs. rewrite chars_of_list in Hs.
  by apply Hne.
Qed.

(** A run of characters of a class, ended by a character outside the class,
    is determined by the text. *)
Lemma run_unique (P : ascii -> Prop) (l1 l2 : list ascii) (a1 a2 : ascii)
    (r1 r2 : list ascii) :
  l1 ++ a1 :: r1 = l2 ++ a2 :: r2 ->
  Forall P l1 -> Forall P l2 -> ~ P a1 -> ~ P a2 ->
  l1 = l2 /\ r1 = r2.
Proof.
  revert l2. induction l1 as [|x l1 IH]; intros [|y l2] E H1 H2 Ha1 Ha2;
    simpl in E.
  - by injection E as _ ->.
  - injection E as -> _. by apply Forall_cons in H2 as [? _].
  - injection E as -> _. by apply Forall_cons in H1 as [? _].
  - injection E as -> E. apply Forall_cons in H1 as [_ H1].
    apply Forall_cons in H2 as [_ H2].
    destruct (IH l2 E H1 H2 Ha1 Ha2) as [-> ->]. done.
Qed.

(** At the start of an occurrence the pattern matches, ends where the
    occurrence ends and captures its URL. *)
Lemma url_occurrence_at_match (start stop : nat) (url body : string) :
  url_occurrence_at start stop url body ->
  start <= length (chars body)
  /\ exists caps,
       Re.match_here url_pattern ∅ (drop start (chars body)) (0 + start)
       = Some (stop, caps)
       /\ Re.group body caps 1 = url.
Proof.
  intros (pre & ws & post & E & <- & -> & Hws & Hne & Hu).
  split; [rewrite E, length_app; lia|].
  assert (drop (length pre) (chars body)
          = chars "src:" ++ ws ++ chars "url(" ++ chars url ++ chars ")" ++ post)
    as Ed by (by rewrite E, drop_app_length).
  assert (chars url <> []) as Hne'.
  { intros Hnil. apply Hne. apply chars_inj. by rewrite Hnil. }
  destruct (url_match_complete ∅ ws (chars url) post (0 + length pre)
              Hws Hne' Hu) as [[e caps] Hm].
  rewrite <- Ed in Hm. exists caps.
  pose proof Hm as Hm'.
  apply url_match_inv in Hm'
    as (ws' & u' & rest' & E' & Hws' & _ & Hu' & Hcap & ->).
  rewrite Ed in E'. apply app_inv_head in E'.
  change (chars "url(") with ("u" :: chars "rl(")%char in E'.
  apply (run_unique (fun c => Py.isspace c = true)) in E'
    as [<- E']; [|done|done|done|done].
  apply app_inv_head in E'.
  change (chars ")") with [")"%char] in E'. simpl in E'.
  apply (run_unique (fun c => c <> ")"%char)) in E'
    as [<- _]; [|done|done|by intros ?|by intros ?].
  split; [by rewrite Hm|].
  rewrite (url_group body (length pre) caps ws (chars url) post Ed Hcap).
  apply string_of_list_ascii_of_string.
Qed.

Lemma search_url_occurrence (content : string)
    (url_match : gmap nat (nat * nat)) :
  Re.search url_pattern content = Some url_match ->
  url_occurrence (Re.group content url_match 1) content.
Proof.
  unfold Re.search.
  destruct (Re.search_from url_pattern (chars content) 0) as [[e caps]|] eqn:E;
    [|done].
  intros [= <-]. apply search_from_inv in E as (i & Hi & H).
  exists i, e. by apply url_match_at.
Qed.

Lemma url_matches_occurrence (css_content url : string) :
  url ∈ url_matches css_content -> url_occurrence url css_content.
Proof.
  unfold url_matches, Re.findall.
  intros (caps & -> & H)%list_elem_of_fmap.
  apply findall_from_inv in H as (i & e & Hi & H).
  exists i, e. by apply url_match_at.
Qed.

Lemma url_occurrence_search (url content : string) :
  url_occurrence url content -> is_Some (Re.search url_pattern content).
Proof.
  intros (i & stop & (Hi & caps & H & _)%url_occurrence_at_match).
  unfold Re.search.
  destruct (search_from_complete url_pattern (chars content) 0 i Hi)
    as [r ->]; by eexists.
Qed.

Lemma url_occurrence_matches (url css_content : string) :
  url_occurrence url css_content -> url_matches css_content <> [].
Proof.
  intros (i & stop & (Hi & caps & H & _)%url_occurrence_at_match).
  unfold url_matches, Re.findall. intros E%fmap_nil_inv.
  apply (findall_from_nonempty url_pattern (chars css_content) 0 i Hi);
    [by eexists|done].
Qed.

(** Every match is reported by the scan unless an earlier reported match
    reaches beyond its start. *)
Lemma findall_from_complete (p : Re.pattern) (s : list ascii)
    (pos skip i e : nat) (caps : gmap nat (nat * nat)) :
  skip <= i -> i <= length s ->
  Re.match_here p ∅ (drop i s) (pos + i) = Some (e, caps) ->
  caps ∈ Re.findall_from p s pos skip
  \/ exists i' e' caps',
       i' < i
       /\ Re.match_here p ∅ (drop i' s) (pos + i') = Some (e', caps')
       /\ caps' ∈ Re.findall_from p s pos skip
       /\ pos + i < e'.
Proof.
  revert pos skip i. induction s as [|c s IH]; intros pos skip i Hskip Hi Hm.
  - simpl in *. assert (i = 0) as -> by lia. assert (skip = 0) as -> by lia.
    rewrite Nat.add_0_r in Hm. simpl in Hm. rewrite Hm. left. left.
  - assert (forall k i0, i = S i0 -> k <= i0 ->
              caps ∈ Re.findall_from p s (S pos) k
              \/ exists i' e' caps',
                   i' < i
                   /\ Re.match_here p ∅ (drop i' (c :: s)) (pos + i')
                      = Some (e', caps')
                   /\ caps' ∈ Re.findall_from p s (S pos) k
                   /\ pos + i < e') as Hrec.
    { intros k i0 -> Hk. simpl in Hi, Hm.
      replace (pos + S i0) with (S pos + i0) in Hm by lia.
      destruct (IH (S pos) k i0 Hk ltac:(lia) Hm)
        as [H|(i' & e' & caps' & Hi' & Hm' & Hin & He')]; [by left|].
      right. exists (S i'), e', caps'. simpl.
      replace (pos + S i') with (S pos + i') by lia.
      split_and!; [lia|done|done|lia]. }
    simpl. destruct skip as [|skip].
    + destruct (Re.match_here p ∅ (c :: s) pos) as [[e0 caps0]|] eqn:E0.
      * destruct i as [|i0].
        -- rewrite Nat.add_0_r in Hm. simpl in Hm.
           rewrite E0 in Hm. injection Hm as -> ->. left. left.
        -- destruct (decide (e0 - pos - 1 <= i0)) as [Hle|Hgt].
           ++ destruct (Hrec (e0 - pos - 1) i0 eq_refl Hle)
                as [H|(i' & e' & caps' & Hi' & Hm' & Hin & He')].
              ** left. by right.
              ** right. exists i', e', caps'.
                 split_and!; [done|done|by right|done].
           ++ right. exists 0, e0, caps0. rewrite Nat.add_0_r. simpl.
              split_and!; [lia|done|left|lia].
      * destruct i as [|i0].
        -- rewrite Nat.add_0_r in Hm. simpl in Hm. congruence.
        -- apply (Hrec 0 i0 eq_refl). lia.
    + destruct i as [|i0]; [lia|]. apply (Hrec skip i0 eq_refl). lia.
Qed.

(** An occurrence is reported in [all_urls] unless an earlier reported
    occurrence reaches beyond its start. *)
Lemma url_occurrence_reported (start stop : nat) (url css_content : string) :
  url_occurrence_at start stop url css_content ->
  url ∈ url_matches css_content
  \/ exists start' stop' url',
       url_occurrence_at start' stop' url' css_content
       /\ url' ∈ url_matches css_content
       /\ start' < start < stop'.
Proof.
  intros (Hi & caps & Hm & Hg)%url_occurrence_at_match.
  unfold url_matches, Re.findall.
  destruct (findall_from_complete url_pattern (chars css_content) 0 0
              start stop caps ltac:(lia) Hi Hm)
    as [H|(i' & e' & caps' & Hi' & Hm' & Hin & He')].
  - left. apply list_elem_of_fmap. by exists caps.
  - right. exists i', e', (Re.group css_content caps' 1). split_and!.
    + apply url_match_at; [lia|done].
    + apply list_elem_of_fmap. by exists caps'.
    + done.
    + lia.
Qed.

(** ** [fonts] and [all_urls] of a parsed stylesheet *)

Lemma elem_of_list_set (xs : list string) (x : string) :
  x ∈ list_set xs <-> x ∈ xs.
Proof. unfold list_set. by rewrite elem_of_elements, elem_of_list_to_set. Qed.

Lemma NoDup_list_set (xs : list string) : NoDup (list_set xs).
Proof. unfold list_set. apply NoDup_elements. Qed.

Lemma list_set_nonempty (xs : list string) : xs <> [] -> list_set xs <> [].
Proof.
  destruct xs as [|x xs]; [done|]. intros _ E.
  assert (x ∈ list_set (x :: xs)) as H by (apply elem_of_list_set; left).
  rewrite E in H. by apply elem_of_nil in H.
Qed.

(** A block is skipped exactly when its content has no [src: url(...)]. *)
Lemma font_face_of_None (m : string * string) :
  font_face_of m = None <-> forall url, ~ url_occurrence url m.2.
Proof.
  destruct m as [subset content]. unfold font_face_of. simpl. split.
  - destruct (Re.search url_pattern content) as [um|] eqn:E; [done|].
    intros _ url [um Hum]%url_occurrence_search. congruence.
  - intros Hno.
    destruct (Re.search url_pattern content) as [um|] eqn:E; [|done].
    apply search_url_occurrence in E. by apply Hno in E.
Qed.

(** The content of a matched block is a slice of the stylesheet. *)
Lemma face_matches_slice (css_content : string) (m : string * string) :
  m ∈ face_matches css_content ->
  exists span, m.2 = Re.slice css_content span.
Proof.
  unfold face_matches. intros (caps & -> & _)%list_elem_of_fmap.
  simpl. unfold Re.group. by eexists.
Qed.

(** The URL of every record of [fonts] occurs in the stylesheet text. *)
Lemma fonts_url_occurrence (family_name css_content : string)
    (f : gmap string pyval) :
  f ∈ fonts (parse_stylesheet family_name css_content) ->
  exists url, f !! "url" = Some (PStr url) /\ url_occurrence url css_content.
Proof.
  intros (m & Hm & Hf)%elem_of_fonts.
  apply font_face_of_Some in Hf as (s & w & t & url & -> & um & Hs & ->).
  exists (Re.group m.2 um 1). split; [apply face_dict_lookup_url|].
  apply search_url_occurrence in Hs.
  apply face_matches_slice in Hm as [span Hspan].
  rewrite Hspan in *. by apply url_occurrence_slice in Hs.
Qed.

Lemma stray_url_example_parse (family_name : string) :
  face_matches stray_url_example = [("latin", " font-weight: 400; ")]
  /\ fonts (parse_stylesheet family_name stray_url_example) = []
  /\ all_urls (parse_stylesheet family_name stray_url_example)
     = ["https://x/z.ttf"].
Proof. split_and!; vm_compute; reflexivity. Qed.

(** The scan of the whole text and the block matching can disagree when an
    unclosed [url(] precedes a block: the record's URL is then inside a
    longer reported URL, and is not itself a member of [all_urls]. *)
Remark overlapped_url_example :
  let info := parse_stylesheet "x"
                "src: url(a /* x */ @font-face { src: url(b) }" in
  (fun f : gmap string pyval => f !! "url") <$> fonts info = [Some (PStr "b")]
  /\ all_urls info = ["a /* x */ @font-face { src: url(b"].
Proof. split; vm_compute; reflexivity. Qed.

(** C4, as stated, fails: in the text [src: url(a src: url(b)] the
    occurrence [src: url(b)] lies inside the argument of the occurrence that
    starts at the beginning of the text and ends at the same closing
    parenthesis; the scan reports that one only, so [b] is the argument of a
    [src: url(...)] occurrence in the body and is not in [all_urls]. *)
Lemma all_urls_misses_occurrence :
  let body := "src: url(a src: url(b)" in
  exists info,
    get_font_urls (serve (catalog_of [entry "Roboto"]) body) "Roboto"
    = Some info
    /\ url_occurrence_at 11 22 "b" body
    /\ url_occurrence_at 0 22 "a src: url(b" body
    /\ all_urls info = ["a src: url(b"]
    /\ "b" ∉ all_urls info.
Proof.
  eexists. split; [vm_compute; reflexivity|]. split_and!.
  - exists (chars "src: url(a "), (chars " "), [].
    split_and!; try reflexivity; try discriminate.
    + repeat constructor.
    + repeat constructor. discriminate.
  - exists [], (chars " "), [].
    split_and!; try reflexivity; try discriminate.
    + repeat constructor.
    + repeat (constructor; [discriminate|]). constructor.
  - vm_compute. reflexivity.
  - vm_compute. intros H. apply list_elem_of_singleton in H. discriminate H.
Qed.

(** C4, amended.  Whenever resolution and the stylesheet fetch succeed, the
    call succeeds, and [all_urls] is the duplicate-free list of the URLs
    reported by scanning the whole stylesheet text for [src: url(...)] from
    left to right, with no reference to the font-face blocks: every member
    is the argument of an
    occurrence of [src: url(...)] in the text, and every occurrence in the
    text, inside a block or not, is a member unless an earlier reported
    occurrence reaches beyond its start.  A matched block is left out of
    [fonts] exactly when its content has no [src: url(...)]; this is no
    failure. *)
Theorem all_urls_whole_body (net : network) (q c css_content : string) :
  find_font_family net q None = Some c ->
  Py.truthy c = true ->
  get_text net (css_url c) = Some css_content ->
  exists info,
    get_font_urls net q = Some info
    /\ NoDup (all_urls info)
    /\ (forall url, url ∈ all_urls info <-> url ∈ url_matches css_content)
    /\ (forall url, url ∈ all_urls info -> url_occurrence url css_content)
    /\ (forall start stop url,
          url_occurrence_at start stop url css_content ->
          url ∈ all_urls info
          \/ exists start' stop' url',
               url_occurrence_at start' stop' url' css_content
               /\ url' ∈ all_urls info
               /\ start' < start < stop')
    /\ fonts info = omap font_face_of (face_matches css_content)
    /\ (forall m, m ∈ face_matches css_content ->
          (font_face_of m = None <-> forall url, ~ url_occurrence url m.2)).
Proof.
  intros Hc Ht Hcss. exists (parse_stylesheet q css_content).
  split.
  { apply get_font_urls_Some. by exists c, css_content. }
  unfold parse_stylesheet. simpl.
  refine (conj _ (conj _ (conj _ (conj _ (conj _ _))))).
  - apply NoDup_list_set.
  - intros url. apply elem_of_list_set.
  - intros url Hin. apply url_matches_occurrence.
    by apply (proj1 (elem_of_list_set _ _)).
  - intros start stop url Hocc.
    destruct (url_occurrence_reported _ _ _ _ Hocc)
      as [H|(start' & stop' & url' & Hocc' & Hin & Hlt)].
    + left. by apply elem_of_list_set.
    + right. exists start', stop', url'.
      split_and!; [done|by apply elem_of_list_set|lia|lia].
  - done.
  - intros m _. apply font_face_of_None.
Qed.

Lemma all_urls_whole_body_witness :
  exists info,
    get_font_urls (serve (catalog_of [entry "Roboto"]) stray_url_example)
      "rob" = Some info
    /\ NoDup (all_urls info)
    /\ (forall url,
          url ∈ all_urls info <-> url ∈ url_matches stray_url_example)
    /\ (forall url,
          url ∈ all_urls info -> url_occurrence url stray_url_example)
    /\ (forall start stop url,
          url_occurrence_at start stop url stray_url_example ->
          url ∈ all_urls info
          \/ exists start' stop' url',
               url_occurrence_at start' stop' url' stray_url_example
               /\ url' ∈ all_urls info
               /\ start' < start < stop')
    /\ fonts info = omap font_face_of (face_matches stray_url_example)
    /\ (forall m, m ∈ face_matches stray_url_example ->
          (font_face_of m = None <-> forall url, ~ url_occurrence url m.2)).
Proof.
  apply (all_urls_whole_body
           (serve (catalog_of [entry "Roboto"]) stray_url_example)
           "rob" "Roboto" stray_url_example).
  - vm_compute. reflexivity.
  - reflexivity.
  - reflexivity.
Defined.

(** C5.  For every stylesheet text, when [fonts] is not empty [all_urls] is
    not empty, because the URL of every record of [fonts] occurs in the whole
    text as [src: url(...)]; and [all_urls] can be non-empty while [fonts] is
    empty. *)
Theorem fonts_nonempty_all_urls_nonempty (family_name css_content : string) :
  (fonts (parse_stylesheet family_name css_content) <> [] ->
   all_urls (parse_stylesheet family_name css_content) <> [])
  /\ (forall f, f ∈ fonts (parse_stylesheet family_name css_content) ->
        exists url,
          f !! "url" = Some (PStr url) /\ url_occurrence url css_content)
  /\ (fonts (parse_stylesheet family_name stray_url_example) = []
      /\ all_urls (parse_stylesheet family_name stray_url_example) <> []).
Proof.
  split_and!.
  - intros Hne.
    destruct (fonts (parse_stylesheet family_name css_content))
      as [|f fs] eqn:E; [done|].
    assert (f ∈ fonts (parse_stylesheet family_name css_content)) as Hf
      by (rewrite E; left).
    apply fonts_url_occurrence in Hf as (url & _ & Hocc).
    unfold parse_stylesheet. simpl.
    apply list_set_nonempty. by apply (url_occurrence_matches url).
  - apply fonts_url_occurrence.
  - apply stray_url_example_parse.
  - destruct (stray_url_example_parse family_name) as (_ & _ & ->). done.
Qed.

Lemma fonts_nonempty_all_urls_nonempty_witness :
  all_urls (parse_stylesheet "Roboto" block_example) <> [].
Proof.
  apply (proj1 (fonts_nonempty_all_urls_nonempty "Roboto" block_example)).
  rewrite fonts_block_example. discriminate.
Defined.

(** ** The preview cache *)

Lemma load_font_resolved (net : network) (family_name font_key : string)
    (s : session) :
  is_Some (preview_fonts s !! font_key) ->
  load_font net family_name font_key s = s.
Proof. intros H. unfold load_font. by rewrite decide_True. Qed.

(** [load_font] writes at most its own key, and only when it is absent. *)
Lemma load_font_lookup (net : network) (family_name font_key k url : string)
    (s : session) :
  preview_fonts s !! k = Some url ->
  preview_fonts (load_font net family_name font_key s) !! k = Some url.
Proof.
  intros Hk. unfold load_font.
  destruct (decide (is_Some (preview_fonts s !! font_key))) as [|Hnone];
    [done|].
  destruct (get_font_urls net family_name) as [info|]; [|done].
  destruct (all_urls info) as [|font_url ?]; [done|]. simpl.
  rewrite lookup_insert_ne; [done|]. intros ->. apply Hnone. by eexists.
Qed.

Lemma request_preview_lookup (net : network) (family_name k url : string)
    (s : session) :
  preview_fonts s !! k = Some url ->
  preview_fonts (request_preview net family_name s) !! k = Some url.
Proof.
  intros Hk. unfold request_preview.
  destruct (decide (is_Some (preview_fonts s !! font_key_of family_name)));
    [done|]. by apply load_font_lookup.
Qed.

Lemma request_previews_lookup (calls : list (network * string))
    (k url : string) (s : session) :
  preview_fonts s !! k = Some url ->
  preview_fonts (request_previews calls s) !! k = Some url.
Proof.
  revert s. induction calls as [|[net fam] calls IH]; intros s Hk; [done|].
  simpl. apply IH. by apply request_preview_lookup.
Qed.

(** C9.  When the key of a family is already in the preview cache, a preview
    request for that family changes nothing: no request is sent and both
    dictionaries keep their contents, whether the key is found by the test
    of [filter_fonts] or by the test inside the task.  This stays so after
    any further preview requests of the session, which leave the URL cached
    under the key as it is. *)
Theorem request_preview_resolved (net : network) (family_name url : string)
    (s : session) :
  preview_fonts s !! font_key_of family_name = Some url ->
  request_preview net family_name s = s
  /\ load_font net family_name (font_key_of family_name) s = s
  /\ (forall calls,
        preview_fonts (request_previews calls s) !! font_key_of family_name
        = Some url
        /\ request_preview net family_name (request_previews calls s)
           = request_previews calls s)
  /\ (forall c : Threads.config,
        Threads.shared c = s ->
        Threads.step (Threads.Spawn family_name) c = Some c
        /\ forall i t,
             Threads.tasks c !! i = Some t ->
             Threads.task_key t = font_key_of family_name ->
             Threads.task_pc t = Threads.AtCheck ->
             Threads.step (Threads.Check i) c
             = Some (Threads.set_pc i t Threads.Done c)).
Proof.
  intros Hk.
  assert (forall s', preview_fonts s' !! font_key_of family_name = Some url ->
                     request_preview net family_name s' = s') as Hidle.
  { intros s' Hs'. unfold request_preview. rewrite decide_True; [done|].
    by eexists. }
  split_and!.
  - by apply Hidle.
  - apply load_font_resolved. by eexists.
  - intros calls.
    pose proof (request_previews_lookup calls _ _ s Hk) as Hk'.
    split; [done|]. by apply Hidle.
  - intros c <-. split.
    + simpl. rewrite decide_True; [done|]. by eexists.
    + intros i t Ht Hkey Hpc. simpl. rewrite Ht, Hpc, Hkey.
      rewrite decide_True; [done|]. by eexists.
Qed.

Lemma roboto_cached_lookup :
  preview_fonts roboto_cached !! font_key_of "Roboto"
  = Some "https://x/y.woff2".
Proof. vm_compute. reflexivity. Qed.

Lemma request_preview_resolved_witness :
  request_preview no_network "Roboto" roboto_cached = roboto_cached.
Proof.
  apply (proj1 (request_preview_resolved no_network "Roboto"
                  "https://x/y.woff2" roboto_cached roboto_cached_lookup)).
Defined.

(** ** Interleaved preview tasks *)

(** C8 fails on the program.  In the schedule [race_schedule] two tasks for
    the family "Roboto" both find the key absent, both send the metadata
    request and, on its answer, both send the stylesheet request: two
    stylesheet fetches for the one key are in flight together, and the key
    is still absent from the cache. *)
Theorem race_two_fetches_in_flight :
  exists c1 c2,
    Threads.run (take 4 Threads.race_schedule) Threads.initial = Some c1
    /\ Threads.task_pc <$> Threads.tasks c1
       = [Threads.AwaitMetadata; Threads.AwaitMetadata]
    /\ Threads.run Threads.race_schedule Threads.initial = Some c2
    /\ Threads.reachable c2
    /\ Threads.task_key <$> Threads.tasks c2
       = [font_key_of "Roboto"; font_key_of "Roboto"]
    /\ Threads.in_flight (font_key_of "Roboto") c2 = 2
    /\ Threads.sent (css_url "Roboto") c2 = 2
    /\ preview_fonts (Threads.shared c2) !! font_key_of "Roboto" = None.
Proof.
  eexists _, _. split; [vm_compute; reflexivity|].
  split; [vm_compute; reflexivity|].
  split; [vm_compute; reflexivity|].
  split; [exists Threads.race_schedule; vm_compute; reflexivity|].
  split_and!; vm_compute; reflexivity.
Qed.

(** The resolver sees the network only through the metadata answer. *)
Lemma find_font_family_answer (net : network) (family_name : string) :
  find_font_family (Threads.metadata_answer (get_json net metadata_url))
    family_name None
  = find_font_family net family_name None.
Proof. reflexivity. Qed.

Lemma set_pc_lookup (i : nat) (t : Threads.task) (p : Threads.pc)
    (c : Threads.config) :
  Threads.tasks c !! i = Some t ->
  Threads.tasks (Threads.set_pc i t p c) !! i
  = Some {| Threads.task_family := Threads.task_family t;
            Threads.task_key := Threads.task_key t;
            Threads.task_pc := p |}.
Proof.
  intros Ht. simpl. apply list_lookup_insert_eq. by eapply lookup_lt_Some.
Qed.

Lemma schedule_alone_step (net : network) (i fuel : nat)
    (c c1 : Threads.config) (ev : Threads.event) :
  Threads.next_event net i c = Some ev ->
  Threads.step ev c = Some c1 ->
  Threads.schedule_alone net i (S fuel) c
  = ev :: Threads.schedule_alone net i fuel c1.
Proof. intros Hn Hs. cbn [Threads.schedule_alone]. by rewrite Hn, Hs. Qed.

Lemma schedule_alone_stop (net : network) (i fuel : nat) (c : Threads.config) :
  Threads.next_event net i c = None ->
  Threads.schedule_alone net i fuel c = [].
Proof. intros Hn. destruct fuel; [done|]. simpl. by rewrite Hn. Qed.

Lemma run_step (ev : Threads.event) (evs : list Threads.event)
    (c c1 : Threads.config) :
  Threads.step ev c = Some c1 ->
  Threads.run (ev :: evs) c = Threads.run evs c1.
Proof. intros Hs. cbn [Threads.run]. by rewrite Hs. Qed.

Lemma next_event_done (net : network) (i : nat) (t : Threads.task)
    (c : Threads.config) :
  Threads.tasks c !! i = Some t ->
  Threads.task_pc t = Threads.Done ->
  Threads.next_event net i c = None.
Proof. intros Ht Hpc. unfold Threads.next_event. by rewrite Ht, Hpc. Qed.

(** The task [t] at the program point [p]. *)
Lemma set_pc_tasks (i : nat) (t t' : Threads.task) (p p' : Threads.pc)
    (c c' : Threads.config) :
  Threads.tasks c'
  = <[i := {| Threads.task_family := Threads.task_family t;
              Threads.task_key := Threads.task_key t;
              Threads.task_pc := p |}]> (Threads.tasks c) ->
  Threads.task_family t' = Threads.task_family t ->
  Threads.task_key t' = Threads.task_key t ->
  Threads.tasks (Threads.set_pc i t' p' c')
  = <[i := {| Threads.task_family := Threads.task_family t;
              Threads.task_key := Threads.task_key t;
              Threads.task_pc := p' |}]> (Threads.tasks c).
Proof.
  intros Hc Hf Hk. simpl. rewrite Hc, Hf, Hk. apply list_insert_insert_eq.
Qed.

(** X26.  The steps of one task, taken with no other task in between and
    with the answers of the network [net] (the schedule
    [Threads.schedule_alone], which holds the next events of that task only,
    at most five), amount to [load_font]: they run the task to its end,
    they leave what the tasks share as [load_font] does, and no other task
    has moved. *)
Lemma task_alone_is_load_font (net : network) (c : Threads.config) (i : nat)
    (t : Threads.task) :
  Threads.tasks c !! i = Some t ->
  Threads.task_pc t = Threads.AtCheck ->
  exists c',
    Threads.run (Threads.schedule_alone net i 5 c) c = Some c'
    /\ Threads.shared c'
       = load_font net (Threads.task_family t) (Threads.task_key t)
           (Threads.shared c)
    /\ Threads.tasks c'
       = <[i := {| Threads.task_family := Threads.task_family t;
                   Threads.task_key := Threads.task_key t;
                   Threads.task_pc := Threads.Done |}]> (Threads.tasks c)
    /\ Threads.next_event net i c' = None.
Proof.
  intros Ht Hpc.
  pose proof (lookup_lt_Some _ _ _ Ht) as Hlt.
  assert (forall (c' : Threads.config) p,
            Threads.tasks c'
            = <[i := {| Threads.task_family := Threads.task_family t;
                        Threads.task_key := Threads.task_key t;
                        Threads.task_pc := p |}]> (Threads.tasks c) ->
            Threads.tasks c' !! i
            = Some {| Threads.task_family := Threads.task_family t;
                      Threads.task_key := Threads.task_key t;
                      Threads.task_pc := p |}) as Hat.
  { intros c' p ->. by apply list_lookup_insert_eq. }
  assert (forall c' : Threads.config,
            Threads.tasks c'
            = <[i := {| Threads.task_family := Threads.task_family t;
                        Threads.task_key := Threads.task_key t;
                        Threads.task_pc := Threads.Done |}]> (Threads.tasks c) ->
            Threads.next_event net i c' = None) as Hend.
  { intros c' Hc'. by eapply next_event_done; [apply Hat, Hc'|]. }
  unfold load_font.
  (* line 221 *)
  destruct (decide (is_Some (preview_fonts (Threads.shared c)
                               !! Threads.task_key t))) as [Hin|Hout].
  { set (c1 := Threads.set_pc i t Threads.Done c).
    assert (Threads.step (Threads.Check i) c = Some c1) as Hs1.
    { cbn [Threads.step]. by rewrite Ht, Hpc, decide_True. }
    assert (Threads.next_event net i c = Some (Threads.Check i)) as Hn
      by (unfold Threads.next_event; by rewrite Ht, Hpc).
    rewrite (schedule_alone_step net i 4 c c1 _ Hn Hs1).
    rewrite (schedule_alone_stop net i 4 c1) by (by apply Hend).
    exists c1. rewrite (run_step _ _ _ _ Hs1).
    split_and!; [done|done|done|by apply Hend]. }
  set (c1 := Threads.log_request metadata_url
               (Threads.set_pc i t Threads.AwaitMetadata c)).
  assert (Threads.step (Threads.Check i) c = Some c1) as Hs1.
  { cbn [Threads.step]. by rewrite Ht, Hpc, decide_False. }
  assert (Threads.next_event net i c = Some (Threads.Check i)) as Hn1
    by (unfold Threads.next_event; by rewrite Ht, Hpc).
  rewrite (schedule_alone_step net i 4 c c1 _ Hn1 Hs1).
  rewrite (run_step _ _ _ _ Hs1).
  assert (Threads.tasks c1
          = <[i := {| Threads.task_family := Threads.task_family t;
                      Threads.task_key := Threads.task_key t;
                      Threads.task_pc := Threads.AwaitMetadata |}]>
              (Threads.tasks c)) as Ht1 by done.
  assert (Threads.next_event net i c1
          = Some (Threads.MetadataResponse i (get_json net metadata_url)))
    as Hn2 by (unfold Threads.next_event; by rewrite (Hat c1 _ Ht1)).
  unfold get_font_urls, requests_of_get_font_urls.
  pose proof (find_font_family_answer net (Threads.task_family t)) as Hff.
  (* lines 39-42 *)
  assert (forall cn,
            find_font_family net (Threads.task_family t) None = cn ->
            match cn with
            | Some n => Py.truthy n = false
            | None => True
            end ->
            exists c2,
              Threads.step (Threads.MetadataResponse i
                              (get_json net metadata_url)) c1 = Some c2
              /\ Threads.shared c2 = Threads.shared c1
              /\ Threads.tasks c2
                 = <[i := {| Threads.task_family := Threads.task_family t;
                             Threads.task_key := Threads.task_key t;
                             Threads.task_pc := Threads.Done |}]>
                     (Threads.tasks c)) as Hfail.
  { intros cn Hcn Hbad. eexists. split_and!.
    - cbn [Threads.step]. rewrite (Hat c1 _ Ht1).
      cbn [Threads.task_pc Threads.task_family]. rewrite Hff, Hcn.
      destruct cn as [n|]; [rewrite Hbad|]; reflexivity.
    - by destruct cn.
    - destruct cn; by apply (set_pc_tasks i t _ Threads.AwaitMetadata). }
  destruct (find_font_family net (Threads.task_family t) None)
    as [cn|] eqn:Hcn.
  2:{ destruct (Hfail None eq_refl I) as (c2 & Hs2 & Hsh & Htk).
      rewrite (schedule_alone_step net i 3 c1 c2 _ Hn2 Hs2).
      rewrite (schedule_alone_stop net i 3 c2) by (by apply Hend).
      exists c2. rewrite (run_step _ _ _ _ Hs2).
      split_and!; [done|by rewrite Hsh|done|by apply Hend]. }
  destruct (Py.truthy cn) eqn:Htr; cbn [negb].
  2:{ destruct (Hfail (Some cn) eq_refl Htr) as (c2 & Hs2 & Hsh & Htk).
      rewrite (schedule_alone_step net i 3 c1 c2 _ Hn2 Hs2).
      rewrite (schedule_alone_stop net i 3 c2) by (by apply Hend).
      exists c2. rewrite (run_step _ _ _ _ Hs2).
      split_and!; [done|by rewrite Hsh|done|by apply Hend]. }
  clear Hfail.
  (* lines 44-47 *)
  set (t1 := {| Threads.task_family := Threads.task_family t;
                Threads.task_key := Threads.task_key t;
                Threads.task_pc := Threads.AwaitMetadata |}).
  set (c2 := Threads.log_request (css_url cn)
               (Threads.set_pc i t1 (Threads.AwaitStylesheet (css_url cn)) c1)).
  assert (Threads.step (Threads.MetadataResponse i
                          (get_json net metadata_url)) c1 = Some c2) as Hs2.
  { cbn [Threads.step]. rewrite (Hat c1 _ Ht1).
    cbn [Threads.task_pc Threads.task_family]. by rewrite Hff, Htr. }
  rewrite (schedule_alone_step net i 3 c1 c2 _ Hn2 Hs2).
  rewrite (run_step _ _ _ _ Hs2).
  assert (Threads.tasks c2
          = <[i := {| Threads.task_family := Threads.task_family t;
                      Threads.task_key := Threads.task_key t;
                      Threads.task_pc := Threads.AwaitStylesheet (css_url cn) |}]>
              (Threads.tasks c)) as Ht2.
  { by apply (set_pc_tasks i t t1 Threads.AwaitMetadata). }
  assert (Threads.shared c2
          = {| preview_fonts := preview_fonts (Threads.shared c);
               page_fonts := page_fonts (Threads.shared c);
               requests := requests (Threads.shared c)
                           ++ [metadata_url; css_url cn] |}) as Hsh2.
  { simpl. by rewrite <- (assoc_L (++)). }
  assert (Threads.next_event net i c2
          = Some (Threads.StylesheetResponse i (get_text net (css_url cn))))
    as Hn3 by (unfold Threads.next_event; by rewrite (Hat c2 _ Ht2)).
  set (t2 := {| Threads.task_family := Threads.task_family t;
                Threads.task_key := Threads.task_key t;
                Threads.task_pc := Threads.AwaitStylesheet (css_url cn) |}).
  (* lines 47-49 and 225 *)
  assert (forall resp,
            get_text net (css_url cn) = resp ->
            match resp with
            | Some css =>
                all_urls (parse_stylesheet (Threads.task_family t) css) = []
            | None => True
            end ->
            Threads.step (Threads.StylesheetResponse i
                            (get_text net (css_url cn))) c2
            = Some (Threads.set_pc i t2 Threads.Done c2)) as Hnone.
  { intros resp Hresp Hbad. cbn [Threads.step]. rewrite (Hat c2 _ Ht2).
    cbn [Threads.task_pc Threads.task_family]. rewrite Hresp.
    destruct resp as [css|]; [by rewrite Hbad|done]. }
  assert (forall resp,
            get_text net (css_url cn) = resp ->
            match resp with
            | Some css =>
                all_urls (parse_stylesheet (Threads.task_family t) css) = []
            | None => True
            end ->
            exists c' : Threads.config,
              Threads.run (Threads.schedule_alone net i 3 c2) c2 = Some c'
              /\ Threads.shared c' = Threads.shared c2
              /\ Threads.tasks c'
                 = <[i := {| Threads.task_family := Threads.task_family t;
                             Threads.task_key := Threads.task_key t;
                             Threads.task_pc := Threads.Done |}]>
                     (Threads.tasks c)
              /\ Threads.next_event net i c' = None) as Hstop.
  { intros resp Hresp Hbad. pose proof (Hnone resp Hresp Hbad) as Hs3.
    assert (Threads.tasks (Threads.set_pc i t2 Threads.Done c2)
            = <[i := {| Threads.task_family := Threads.task_family t;
                        Threads.task_key := Threads.task_key t;
                        Threads.task_pc := Threads.Done |}]>
                (Threads.tasks c)) as Ht3
      by (by apply (set_pc_tasks i t t2 (Threads.AwaitStylesheet (css_url cn)))).
    rewrite (schedule_alone_step net i 2 c2 _ _ Hn3 Hs3).
    rewrite (schedule_alone_stop net i 2 _) by (by apply Hend).
    eexists. rewrite (run_step _ _ _ _ Hs3).
    split_and!; [done|done|done|by apply Hend]. }
  destruct (get_text net (css_url cn)) as [css|] eqn:Hcss.
  2:{ destruct (Hstop None eq_refl I) as (c' & Hr & Hsh & Htk & He).
      exists c'. split_and!; [done|by rewrite Hsh, Hsh2|done|done]. }
  destruct (all_urls (parse_stylesheet (Threads.task_family t) css))
    as [|font_url urls] eqn:Hurls.
  { destruct (Hstop (Some css) eq_refl Hurls) as (c' & Hr & Hsh & Htk & He).
    exists c'. split_and!; [done|by rewrite Hsh, Hsh2|done|done]. }
  clear Hnone Hstop.
  (* lines 226-231 *)
  set (c3 := Threads.set_pc i t2 (Threads.AtPreviewWrite font_url) c2).
  assert (Threads.step (Threads.StylesheetResponse i (Some css)) c2
          = Some c3) as Hs3.
  { cbn [Threads.step]. rewrite (Hat c2 _ Ht2).
    cbn [Threads.task_pc Threads.task_family]. by rewrite Hurls. }
  rewrite (schedule_alone_step net i 2 c2 c3 _ Hn3 Hs3).
  rewrite (run_step _ _ _ _ Hs3).
  assert (Threads.tasks c3
          = <[i := {| Threads.task_family := Threads.task_family t;
                      Threads.task_key := Threads.task_key t;
                      Threads.task_pc := Threads.AtPreviewWrite font_url |}]>
              (Threads.tasks c)) as Ht3
    by (by apply (set_pc_tasks i t t2 (Threads.AwaitStylesheet (css_url cn)))).
  assert (Threads.next_event net i c3 = Some (Threads.WritePreview i))
    as Hn4 by (unfold Threads.next_event; by rewrite (Hat c3 _ Ht3)).
  set (t3 := {| Threads.task_family := Threads.task_family t;
                Threads.task_key := Threads.task_key t;
                Threads.task_pc := Threads.AtPreviewWrite font_url |}).
  set (c4 := {| Threads.shared :=
                  {| preview_fonts :=
                       <[Threads.task_key t := font_url]>
                         (preview_fonts (Threads.shared c3));
                     page_fonts := page_fonts (Threads.shared c3);
                     requests := requests (Threads.shared c3) |};
                Threads.tasks :=
                  Threads.tasks
                    (Threads.set_pc i t3 (Threads.AtFontsWrite font_url) c3) |}).
  assert (Threads.step (Threads.WritePreview i) c3 = Some c4) as Hs4.
  { cbn [Threads.step]. by rewrite (Hat c3 _ Ht3). }
  rewrite (schedule_alone_step net i 1 c3 c4 _ Hn4 Hs4).
  rewrite (run_step _ _ _ _ Hs4).
  assert (Threads.tasks c4
          = <[i := {| Threads.task_family := Threads.task_family t;
                      Threads.task_key := Threads.task_key t;
                      Threads.task_pc := Threads.AtFontsWrite font_url |}]>
              (Threads.tasks c)) as Ht4
    by (by apply (set_pc_tasks i t t3 (Threads.AtPreviewWrite font_url))).
  assert (Threads.next_event net i c4 = Some (Threads.WriteFonts i))
    as Hn5 by (unfold Threads.next_event; by rewrite (Hat c4 _ Ht4)).
  set (t4 := {| Threads.task_family := Threads.task_family t;
                Threads.task_key := Threads.task_key t;
                Threads.task_pc := Threads.AtFontsWrite font_url |}).
  set (c5 := {| Threads.shared :=
                  {| preview_fonts := preview_fonts (Threads.shared c4);
                     page_fonts :=
                       <[Threads.task_key t := font_url]>
                         (page_fonts (Threads.shared c4));
                     requests := requests (Threads.shared c4) |};
                Threads.tasks :=
                  Threads.tasks (Threads.set_pc i t4 Threads.Done c4) |}).
  assert (Threads.step (Threads.WriteFonts i) c4 = Some c5) as Hs5.
  { cbn [Threads.step]. by rewrite (Hat c4 _ Ht4). }
  rewrite (schedule_alone_step net i 0 c4 c5 _ Hn5 Hs5).
  rewrite (run_step _ _ _ _ Hs5).
  assert (Threads.tasks c5
          = <[i := {| Threads.task_family := Threads.task_family t;
                      Threads.task_key := Threads.task_key t;
                      Threads.task_pc := Threads.Done |}]>
              (Threads.tasks c)) as Ht5
    by (by apply (set_pc_tasks i t t4 (Threads.AtFontsWrite font_url))).
  exists c5. split_and!; [done| |done|by apply Hend].
  unfold update_fonts. simpl. by rewrite <- (assoc_L (++)).
Qed.

(** * Further properties of the program *)

(** ** More on the family resolver *)

Lemma str_app_nil_r (a : string) : a +:+ "" = a.
Proof.
  induction a as [|c a IH]; [done|].
  change (String c a +:+ "") with (String c (a +:+ "")). by rewrite IH.
Qed.

Lemma chars_app (a b : string) : chars (a +:+ b) = chars a ++ chars b.
Proof.
  induction a as [|c a IH]; [done|].
  change (String c a +:+ b) with (String c (a +:+ b)). simpl.
  by rewrite <- IH.
Qed.

Lemma contains_refl (a : string) : Py.contains a a = true.
Proof.
  apply contains_spec. exists "", "".
  change ("" +:+ a +:+ "") with (a +:+ ""). by rewrite str_app_nil_r.
Qed.

Lemma exact_pass_Some (ql n : string) (rows : list (gmap string string)) :
  exact_pass ql rows = Some n ->
  exists fd, fd ∈ rows /\ family_of fd = n /\ Py.lower n = ql.
Proof.
  induction rows as [|fd rows IH]; simpl; [done|].
  destruct (Py.eqb (Py.lower (family_of fd)) ql) eqn:E.
  - intros [= <-]. apply py_eqb_eq in E. exists fd. split_and!; [left|done|done].
  - intros (fd' & Hin & H)%IH. exists fd'. split; [by right|done].
Qed.

Lemma substring_pass_Some (ql n : string) (rows : list (gmap string string)) :
  substring_pass ql rows = Some n ->
  exists fd, fd ∈ rows /\ family_of fd = n
    /\ Py.contains ql (Py.lower n) = true.
Proof.
  induction rows as [|fd rows IH]; simpl; [done|].
  destruct (Py.contains ql (Py.lower (family_of fd))) eqn:E.
  - intros [= <-]. exists fd. split_and!; [left|done|done].
  - intros (fd' & Hin & H)%IH. exists fd'. split; [by right|done].
Qed.

Lemma substring_pass_None (ql : string) (rows : list (gmap string string)) :
  substring_pass ql rows = None <->
  forall fd, fd ∈ rows -> Py.contains ql (Py.lower (family_of fd)) = false.
Proof.
  induction rows as [|fd rows IH]; simpl.
  - split; [intros _ fd H; by apply elem_of_nil in H | done].
  - destruct (Py.contains ql (Py.lower (family_of fd))) eqn:E.
    + split; [done|]. intros H. specialize (H fd ltac:(left)). congruence.
    + rewrite IH. split.
      * intros H fd' [->|Hin]%elem_of_cons; auto.
      * intros H fd' Hin. apply H. by right.
Qed.

(** The metadata the resolver works on: the argument, or the fetched
    document when the argument is left out. *)
Lemma find_font_family_Some_inv (net : network) (q n : string)
    (md : option (gmap string (list (gmap string string)))) :
  find_font_family net q md = Some n ->
  exists m,
    match md with
    | None => get_google_fonts_metadata net
    | Some m => Some m
    end = Some m
    /\ (exact_pass (Py.lower q) (family_list_of m) = Some n
        \/ (exact_pass (Py.lower q) (family_list_of m) = None
            /\ substring_pass (Py.lower q) (family_list_of m) = Some n)).
Proof.
  unfold find_font_family.
  destruct (match md with
            | None => get_google_fonts_metadata net
            | Some m => Some m
            end) as [m|]; [|done].
  destruct (decide (m = ∅)); [done|].
  intros H. exists m. split; [done|].
  destruct (exact_pass (Py.lower q) (family_list_of m)) as [n'|]; [left|right];
    by simplify_eq.
Qed.

Lemma find_font_family_occurs (net : network) (q n : string)
    (md : option (gmap string (list (gmap string string)))) :
  find_font_family net q md = Some n ->
  exists m fd,
    match md with
    | None => get_google_fonts_metadata net
    | Some m => Some m
    end = Some m
    /\ fd ∈ family_list_of m
    /\ family_of fd = n
    /\ occurs_in (Py.lower q) (Py.lower n).
Proof.
  intros (m & Hm & [H|[_ H]])%find_font_family_Some_inv.
  - apply exact_pass_Some in H as (fd & Hin & Hfd & Hl).
    exists m, fd. split_and!; try done.
    apply contains_spec. rewrite Hl. apply contains_refl.
  - apply substring_pass_Some in H as (fd & Hin & Hfd & Hc).
    exists m, fd. split_and!; try done. by apply contains_spec.
Qed.

(** X1.  Whatever [find_font_family] returns is the name of a row of the
    catalog it searched, and contains the query when both are put in lower
    case. *)
Theorem resolve_sound (net : network) (q n : string)
    (md : option (gmap string (list (gmap string string)))) :
  find_font_family net q md = Some n ->
  exists m fd,
    match md with
    | None => get_google_fonts_metadata net
    | Some m => Some m
    end = Some m
    /\ fd ∈ family_list_of m
    /\ family_of fd = n
    /\ occurs_in (Py.lower q) (Py.lower n).
Proof. apply find_font_family_occurs. Qed.

Lemma resolve_sound_witness :
  exists m fd,
    Some (catalog_of [entry "Noto Sans"; entry "Noto"]) = Some m
    /\ fd ∈ family_list_of m
    /\ family_of fd = "Noto Sans"
    /\ occurs_in (Py.lower "SANS") (Py.lower "Noto Sans").
Proof.
  apply (resolve_sound no_network "SANS" "Noto Sans"
           (Some (catalog_of [entry "Noto Sans"; entry "Noto"]))).
  vm_compute. reflexivity.
Defined.

(** X2.  With a catalog at hand, [find_font_family] returns [None] exactly
    when no row of the family list has a name that contains the query, both
    in lower case. *)
Theorem resolve_None_iff (net : network) (q : string)
    (m : gmap string (list (gmap string string))) :
  find_font_family net q (Some m) = None <->
  forall fd, fd ∈ family_list_of m ->
             ~ occurs_in (Py.lower q) (Py.lower (family_of fd)).
Proof.
  unfold find_font_family.
  destruct (decide (m = ∅)) as [->|_].
  { unfold family_list_of. rewrite lookup_empty. simpl. split; [|done].
    intros _ fd H. by apply elem_of_nil in H. }
  split.
  - destruct (exact_pass (Py.lower q) (family_list_of m)) eqn:E; [done|].
    intros H fd Hin Hocc%contains_spec.
    rewrite (proj1 (substring_pass_None _ _) H fd Hin) in Hocc. done.
  - intros H.
    assert (substring_pass (Py.lower q) (family_list_of m) = None) as Hs.
    { apply substring_pass_None. intros fd Hin.
      destruct (Py.contains (Py.lower q) (Py.lower (family_of fd))) eqn:E;
        [|done].
      apply contains_spec in E. by apply H in E. }
    destruct (exact_pass (Py.lower q) (family_list_of m)) as [n|] eqn:E;
      [|done].
    apply exact_pass_Some in E as (fd & Hin & Hfd & Hl). exfalso.
    apply (H fd Hin). apply contains_spec. rewrite Hfd, Hl.
    apply contains_refl.
Qed.

Lemma lower_char_idemp (c : ascii) :
  Py.lower_char (Py.lower_char c) = Py.lower_char c.
Proof. destruct c as [[] [] [] [] [] [] [] []]; reflexivity. Qed.

Lemma lower_idemp (s : string) : Py.lower (Py.lower s) = Py.lower s.
Proof.
  induction s as [|c s IH]; simpl; [done|].
  by rewrite lower_char_idemp, IH.
Qed.

(** X3.  Resolution ignores the case of the query: the query and its lower
    case resolve alike, hence so do two queries equal ignoring case. *)
Theorem resolve_ignores_query_case (net : network) (q1 q2 : string)
    (md : option (gmap string (list (gmap string string)))) :
  find_font_family net (Py.lower q1) md = find_font_family net q1 md
  /\ (Py.lower q1 = Py.lower q2 ->
      find_font_family net q1 md = find_font_family net q2 md).
Proof.
  split.
  - unfold find_font_family. by rewrite lower_idemp.
  - intros H. unfold find_font_family. by rewrite H.
Qed.

Lemma resolve_ignores_query_case_witness :
  find_font_family no_network "ROBOTO" (Some (catalog_of [entry "Roboto"]))
  = find_font_family no_network "roboto" (Some (catalog_of [entry "Roboto"])).
Proof.
  apply (proj2 (resolve_ignores_query_case no_network "ROBOTO" "roboto"
                  (Some (catalog_of [entry "Roboto"])))).
  reflexivity.
Defined.

(** ** More on [get_font_urls] *)

Lemma occurs_in_nonempty (a b : string) :
  occurs_in a b -> a <> "" -> b <> "".
Proof.
  intros (pre & post & ->) Ha Hb. apply Ha. apply chars_inj.
  apply (f_equal chars) in Hb. rewrite !chars_app in Hb. simpl in Hb.
  apply app_eq_nil in Hb as [_ Hb]. by apply app_eq_nil in Hb as [Hb _].
Qed.

Lemma truthy_true (s : string) : Py.truthy s = true <-> s <> "".
Proof. destruct s; simpl; split; congruence. Qed.

(** X4.  For a non-empty query, [get_font_urls] returns [None] exactly when
    the query resolves to nothing or the stylesheet request for the resolved
    name fails: the test [not correct_family_name] can only fire for the
    empty query, and the text of the stylesheet never causes a failure. *)
Theorem get_font_urls_None_iff (net : network) (q : string) :
  q <> "" ->
  (get_font_urls net q = None <->
   find_font_family net q None = None
   \/ exists c, find_font_family net q None = Some c
        /\ get_text net (css_url c) = None).
Proof.
  intros Hq. unfold get_font_urls.
  destruct (find_font_family net q None) as [c|] eqn:Hc.
  2:{ split; [by left|done]. }
  assert (Py.truthy c = true) as ->.
  { apply truthy_true.
    apply find_font_family_occurs in Hc as (m & fd & _ & _ & _ & Hocc).
    intros ->. apply occurs_in_nonempty in Hocc; [done|].
    intros E. by apply (proj1 (lower_empty_iff q)) in E. }
  simpl. destruct (get_text net (css_url c)) eqn:Ht.
  - split; [done|]. intros [H|(c' & [= <-] & H)]; congruence.
  - split; [|done]. intros _. right. by exists c.
Qed.

Lemma get_font_urls_None_iff_witness :
  get_font_urls (serve (catalog_of [entry "Roboto"]) "") "Lato" = None <->
  find_font_family (serve (catalog_of [entry "Roboto"]) "") "Lato" None = None
  \/ exists c,
       find_font_family (serve (catalog_of [entry "Roboto"]) "") "Lato" None
       = Some c
       /\ get_text (serve (catalog_of [entry "Roboto"]) "") (css_url c) = None.
Proof.
  apply (get_font_urls_None_iff (serve (catalog_of [entry "Roboto"]) "")
           "Lato").
  discriminate.
Defined.

(** A labelled value: [label], white space, then a run of a class captured
    as group 1.  The weight and the style patterns have this shape. *)
Lemma value_match_inv (w : list ascii) (cls : ascii -> bool)
    (caps : gmap nat (nat * nat)) (s : list ascii) (pos e : nat)
    (caps' : gmap nat (nat * nat)) :
  Re.match_here
    ((Re.Chr <$> w)
     ++ [Re.Rep Py.isspace 0 true; Re.Open 1; Re.Rep cls 1 true; Re.Close 1])
    caps s pos = Some (e, caps') ->
  exists ws d rest,
    s = w ++ ws ++ d ++ rest
    /\ Forall (fun c => Py.isspace c = true) ws
    /\ d <> []
    /\ Forall (fun c => cls c = true) d
    /\ caps' !! 1 = Some (pos + length w + length ws,
                          pos + length w + length ws + length d).
Proof.
  intros H. apply match_here_lit in H as (s1 & -> & H).
  rewrite match_here_rep in H.
  apply rep_inv in H as (j & _ & Hj & Hws & H).
  cbn [Re.match_here] in H.
  apply rep_inv in H as (j2 & Hlo & Hj2 & Hd & H).
  cbn [Re.match_here] in H. rewrite lookup_insert_eq in H.
  injection H as _ <-.
  exists (take j s1), (take j2 (drop j s1)), (drop j2 (drop j s1)).
  rewrite !take_drop, !length_take_le by done.
  split_and!; [done|done| |done|by rewrite lookup_insert_eq].
  destruct (drop j s1); [simpl in *; lia|]. destruct j2; [lia|done].
Qed.

(** The text of a group that spans a known part of the subject. *)
Lemma group_span (text : string) (caps : gmap nat (nat * nat)) (g : nat)
    (a d rest : list ascii) :
  chars text = a ++ d ++ rest ->
  caps !! g = Some (length a, length a + length d) ->
  Re.group text caps g = string_of_list_ascii d.
Proof.
  intros E Hcap. unfold Re.group, Re.slice. rewrite Hcap, E. simpl.
  rewrite drop_app_length.
  replace (length a + length d - length a) with (length d) by lia.
  by rewrite take_app_length.
Qed.

Lemma search_value (w : string) (cls : ascii -> bool) (content : string)
    (m : gmap nat (nat * nat)) :
  Re.search
    (Re.lit w
     ++ [Re.star Py.isspace; Re.Open 1; Re.plus cls; Re.Close 1])
    content = Some m ->
  exists pre ws d rest,
    chars content = pre ++ chars w ++ ws ++ d ++ rest
    /\ d <> []
    /\ Forall (fun c => cls c = true) d
    /\ Re.group content m 1 = string_of_list_ascii d.
Proof.
  unfold Re.search, Re.lit, Re.star, Re.plus.
  destruct (Re.search_from _ (chars content) 0) as [[e caps]|] eqn:E; [|done].
  intros [= <-]. apply search_from_inv in E as (i & Hi & H).
  apply value_match_inv in H as (ws & d & rest & E & Hws & Hne & Hd & Hcap).
  exists (take i (chars content)), ws, d, rest.
  assert (chars content
          = take i (chars content) ++ chars w ++ ws ++ d ++ rest) as Ec
    by (by rewrite <- E, take_drop).
  split_and!; try done.
  apply (group_span content caps 1
           (take i (chars content) ++ chars w ++ ws) d rest).
  - by rewrite <- !(assoc_L (++)).
  - rewrite Hcap, !length_app, length_take_le by done.
    f_equal. f_equal; lia.
Qed.

Lemma chars_occurs_in (w body : string) (pre rest : list ascii) :
  chars body = pre ++ chars w ++ rest -> occurs_in w body.
Proof.
  intros E. exists (string_of_list_ascii pre), (string_of_list_ascii rest).
  apply chars_inj. by rewrite !chars_app, !chars_of_list.
Qed.

(** The five values of the record built for one block. *)
Lemma font_face_of_fields (subset content : string) (f : gmap string pyval) :
  font_face_of (subset, content) = Some f ->
  exists url_match,
    Re.search url_pattern content = Some url_match
    /\ f = face_dict (PStr (Py.strip subset))
             (PStr match Re.search weight_pattern content with
                   | Some weight_match => Re.group content weight_match 1
                   | None => "400"
                   end)
             (PStr match Re.search style_pattern content with
                   | Some style_match => Re.group content style_match 1
                   | None => "normal"
                   end)
             (PStr (Re.group content url_match 1))
             (PStr (format_type (Re.group content url_match 1))).
Proof.
  unfold font_face_of.
  destruct (Re.search url_pattern content) as [um|]; [|done].
  intros [= <-]. by exists um.
Qed.

Lemma face_dict_lookup_weight (subset weight style url format : pyval) :
  face_dict subset weight style url format !! "weight" = Some weight.
Proof. unfold face_dict. by simplify_map_eq. Qed.

Lemma face_dict_lookup_style (subset weight style url format : pyval) :
  face_dict subset weight style url format !! "style" = Some style.
Proof. unfold face_dict. by simplify_map_eq. Qed.

Lemma face_dict_lookup_subset (subset weight style url format : pyval) :
  face_dict subset weight style url format !! "subset" = Some subset.
Proof. unfold face_dict. by simplify_map_eq. Qed.

(** X5.  The weight of every record of [fonts] is a non-empty string of
    decimal digits (the digits found after [font-weight:], or "400"). *)
Theorem fonts_weight_digits (family_name css_content : string)
    (f : gmap string pyval) :
  f ∈ fonts (parse_stylesheet family_name css_content) ->
  exists w, f !! "weight" = Some (PStr w)
    /\ w <> ""
    /\ Forall (fun c => Py.isdigit c = true) (chars w).
Proof.
  intros ([subset content] & _ & Hf)%elem_of_fonts.
  apply font_face_of_fields in Hf as (um & _ & ->).
  rewrite face_dict_lookup_weight. eexists. split; [reflexivity|].
  destruct (Re.search weight_pattern content) as [wm|] eqn:E.
  - apply (search_value "font-weight:" Py.isdigit) in E
      as (pre & ws & d & rest & _ & Hne & Hd & ->).
    rewrite chars_of_list. split; [|done].
    intros H. apply (f_equal chars) in H. by rewrite chars_of_list in H.
  - split; [done|]. repeat constructor.
Qed.

Lemma fonts_weight_digits_witness :
  exists w,
    face_dict (PStr "latin") (PStr "700") (PStr "italic")
      (PStr "https://x/y.woff2") (PStr "woff2") !! "weight" = Some (PStr w)
    /\ w <> ""
    /\ Forall (fun c => Py.isdigit c = true) (chars w).
Proof.
  apply (fonts_weight_digits "Roboto" block_example).
  rewrite fonts_block_example. apply list_elem_of_here.
Defined.

(** X6.  The style of every record of [fonts] is a non-empty string of word
    characters (the word found after [font-style:], or "normal"). *)
Theorem fonts_style_word (family_name css_content : string)
    (f : gmap string pyval) :
  f ∈ fonts (parse_stylesheet family_name css_content) ->
  exists st, f !! "style" = Some (PStr st)
    /\ st <> ""
    /\ Forall (fun c => Py.isword c = true) (chars st).
Proof.
  intros ([subset content] & _ & Hf)%elem_of_fonts.
  apply font_face_of_fields in Hf as (um & _ & ->).
  rewrite face_dict_lookup_style. eexists. split; [reflexivity|].
  destruct (Re.search style_pattern content) as [sm|] eqn:E.
  - apply (search_value "font-style:" Py.isword) in E
      as (pre & ws & d & rest & _ & Hne & Hd & ->).
    rewrite chars_of_list. split; [|done].
    intros H. apply (f_equal chars) in H. by rewrite chars_of_list in H.
  - split; [done|]. repeat constructor.
Qed.

Lemma fonts_style_word_witness :
  exists st,
    face_dict (PStr "latin") (PStr "700") (PStr "italic")
      (PStr "https://x/y.woff2") (PStr "woff2") !! "style" = Some (PStr st)
    /\ st <> ""
    /\ Forall (fun c => Py.isword c = true) (chars st).
Proof.
  apply (fonts_style_word "Roboto" block_example).
  rewrite fonts_block_example. apply list_elem_of_here.
Defined.

(** X7.  A block whose content has no [font-weight:] gets the weight "400",
    and one whose content has no [font-style:] gets the style "normal". *)
Theorem fonts_defaults (subset content : string) (f : gmap string pyval) :
  font_face_of (subset, content) = Some f ->
  (~ occurs_in "font-weight:" content -> f !! "weight" = Some (PStr "400"))
  /\ (~ occurs_in "font-style:" content -> f !! "style" = Some (PStr "normal")).
Proof.
  intros (um & _ & ->)%font_face_of_fields.
  rewrite face_dict_lookup_weight, face_dict_lookup_style. split.
  - intros Hno.
    destruct (Re.search weight_pattern content) as [wm|] eqn:E; [|done].
    apply (search_value "font-weight:" Py.isdigit) in E
      as (pre & ws & d & rest & Ec & _).
    exfalso. apply Hno. by eapply chars_occurs_in.
  - intros Hno.
    destruct (Re.search style_pattern content) as [sm|] eqn:E; [|done].
    apply (search_value "font-style:" Py.isword) in E
      as (pre & ws & d & rest & Ec & _).
    exfalso. apply Hno. by eapply chars_occurs_in.
Qed.

Lemma fonts_defaults_witness :
  let f := face_dict (PStr "latin") (PStr "400") (PStr "normal")
             (PStr "a.ttf") (PStr "ttf") in
  f !! "weight" = Some (PStr "400") /\ f !! "style" = Some (PStr "normal").
Proof.
  destruct (fonts_defaults "latin" " src: url(a.ttf) "
              (face_dict (PStr "latin") (PStr "400") (PStr "normal")
                 (PStr "a.ttf") (PStr "ttf")))
    as [Hw Hs]; [vm_compute; reflexivity|].
  split.
  - apply Hw. intros Hocc%contains_spec. vm_compute in Hocc. discriminate Hocc.
  - apply Hs. intros Hocc%contains_spec. vm_compute in Hocc. discriminate Hocc.
Defined.

(** X8.  Every member of [all_urls], and the URL of every record of [fonts],
    is a non-empty string without a closing parenthesis. *)
Theorem urls_wellformed (family_name css_content url : string) :
  url ∈ all_urls (parse_stylesheet family_name css_content)
  \/ (exists f, f ∈ fonts (parse_stylesheet family_name css_content)
        /\ f !! "url" = Some (PStr url)) ->
  url <> "" /\ Forall (fun c => c <> ")"%char) (chars url).
Proof.
  assert (url_occurrence url css_content ->
          url <> "" /\ Forall (fun c => c <> ")"%char) (chars url)) as Hocc.
  { by intros (i & stop & pre & ws & post & _ & _ & _ & _ & Hne & Hu). }
  intros [Hin|(f & Hf & Hurl)]; apply Hocc.
  - apply url_matches_occurrence.
    by apply (proj1 (elem_of_list_set _ _)).
  - apply fonts_url_occurrence in Hf as (url' & Hurl' & H).
    rewrite Hurl in Hurl'. by injection Hurl' as ->.
Qed.

Lemma urls_wellformed_witness :
  "https://x/z.ttf" <> ""
  /\ Forall (fun c => c <> ")"%char) (chars "https://x/z.ttf").
Proof.
  apply (urls_wellformed "Roboto" stray_url_example). left.
  destruct (stray_url_example_parse "Roboto") as (_ & _ & ->).
  apply list_elem_of_here.
Defined.

(** ** [str.strip] *)

Lemma lstrip_head (s : string) (c : ascii) (r : string) :
  Py.lstrip s = String c r -> Py.isspace c = false.
Proof.
  induction s as [|x s IH]; simpl; [done|].
  destruct (Py.isspace x) eqn:E; [done|]. by intros [= <- _].
Qed.

Lemma rstrip_head (s : string) (c : ascii) (r : string) :
  Py.rstrip s = String c r -> exists s', s = String c s'.
Proof.
  destruct s as [|x s]; simpl; [done|].
  destruct (Py.rstrip s); [destruct (Py.isspace x)|]; intros [= <- _];
    by eexists.
Qed.

Lemma rstrip_last (s : string) (r : list ascii) (c : ascii) :
  chars (Py.rstrip s) = r ++ [c] -> Py.isspace c = false.
Proof.
  revert r. induction s as [|x s IH]; intros r; simpl.
  - by destruct r.
  - destruct (Py.rstrip s) as [|y t] eqn:E.
    + destruct (Py.isspace x) eqn:Hx; simpl; [by destruct r|].
      destruct r as [|? [|? ?]]; simpl; intros [= <-]; try done.
    + simpl. destruct r as [|z r]; simpl.
      * intros H. discriminate H.
      * intros [= _ H]. by apply (IH r).
Qed.

(** X9.  The subset of every record of [fonts] has no white space at its
    start or at its end. *)
Theorem fonts_subset_stripped (family_name css_content : string)
    (f : gmap string pyval) :
  f ∈ fonts (parse_stylesheet family_name css_content) ->
  exists subset, f !! "subset" = Some (PStr subset)
    /\ (forall c r, subset = String c r -> Py.isspace c = false)
    /\ (forall r c, chars subset = r ++ [c] -> Py.isspace c = false).
Proof.
  intros ([subset content] & _ & Hf)%elem_of_fonts.
  apply font_face_of_fields in Hf as (um & _ & ->).
  rewrite face_dict_lookup_subset. eexists. split; [reflexivity|].
  unfold Py.strip. split.
  - intros c r H. pose proof H as (s' & Hs')%rstrip_head.
    by apply lstrip_head in Hs'.
  - intros r c. apply rstrip_last.
Qed.

Lemma fonts_subset_stripped_witness :
  exists subset,
    face_dict (PStr "latin") (PStr "700") (PStr "italic")
      (PStr "https://x/y.woff2") (PStr "woff2") !! "subset"
    = Some (PStr subset)
    /\ (forall c r, subset = String c r -> Py.isspace c = false)
    /\ (forall r c, chars subset = r ++ [c] -> Py.isspace c = false).
Proof.
  apply (fonts_subset_stripped "Roboto" block_example).
  rewrite fonts_block_example. apply list_elem_of_here.
Defined.

Lemma url_occurrence_src (url body : string) :
  url_occurrence url body -> occurs_in "src:" body.
Proof.
  intros (i & stop & pre & ws & post & E & _). by eapply chars_occurs_in.
Qed.

(** X10.  A stylesheet text in which [src:] does not occur yields no record
    and no URL (and still a result, not a failure). *)
Theorem no_src_no_fonts (family_name css_content : string) :
  ~ occurs_in "src:" css_content ->
  fonts (parse_stylesheet family_name css_content) = []
  /\ all_urls (parse_stylesheet family_name css_content) = [].
Proof.
  intros Hno. split.
  - destruct (fonts (parse_stylesheet family_name css_content))
      as [|f fs] eqn:E; [done|]. exfalso.
    assert (f ∈ fonts (parse_stylesheet family_name css_content)) as Hf
      by (rewrite E; left).
    apply fonts_url_occurrence in Hf as (url & _ & Hocc).
    by apply url_occurrence_src in Hocc.
  - destruct (all_urls (parse_stylesheet family_name css_content))
      as [|u us] eqn:E; [done|]. exfalso.
    assert (u ∈ all_urls (parse_stylesheet family_name css_content)) as Hu
      by (rewrite E; left).
    apply (proj1 (elem_of_list_set _ _)) in Hu.
    apply url_matches_occurrence in Hu. by apply url_occurrence_src in Hu.
Qed.

Lemma no_src_no_fonts_witness :
  fonts (parse_stylesheet "Roboto" "/* latin */ @font-face { }") = []
  /\ all_urls (parse_stylesheet "Roboto" "/* latin */ @font-face { }") = [].
Proof.
  apply (no_src_no_fonts "Roboto" "/* latin */ @font-face { }").
  intros Hocc%contains_spec. vm_compute in Hocc. discriminate Hocc.
Defined.

(** ** [list_available_fonts] *)

Lemma list_fonts_loop_take (limit : nat) (rows : list (gmap string string))
    (acc : list (gmap string string)) :
  length acc < limit ->
  list_fonts_loop (Z.of_nat limit) rows acc
  = acc ++ (font_dict <$> take (limit - length acc)
                            (filter (fun n => n <> "") (family_of <$> rows))).
Proof.
  revert acc. induction rows as [|fd rows IH]; intros acc Hlt; simpl.
  - rewrite filter_nil, take_nil. simpl. by rewrite app_nil_r.
  - destruct (Py.truthy (family_of fd)) eqn:Ht.
    + apply truthy_true in Ht. rewrite filter_cons_True by done.
      rewrite length_app. simpl length.
      replace (limit - length acc) with (S (limit - (length acc + 1))) by lia.
      destruct (Z.leb_spec (Z.of_nat limit) (Z.of_nat (length acc + 1))).
      * by replace (limit - (length acc + 1)) with 0 by lia.
      * rewrite IH by (rewrite length_app; simpl; lia).
        rewrite length_app. simpl. by rewrite <- (assoc_L (++)).
    + assert (family_of fd = "") as Hempty
        by (destruct (family_of fd); [done|discriminate Ht]).
      rewrite filter_cons_False by (intros H; by apply H).
      destruct (Z.leb_spec (Z.of_nat limit) (Z.of_nat (length acc))); [lia|].
      by apply IH.
Qed.

Lemma list_available_fonts_first (net : network) (limit : Z)
    (m : gmap string (list (gmap string string))) :
  get_google_fonts_metadata net = Some m ->
  (1 <= limit)%Z ->
  list_available_fonts net limit
  = font_dict <$> take (Z.to_nat limit)
                    (filter (fun n => n <> "")
                       (family_of <$> family_list_of m)).
Proof.
  intros Hm Hl. unfold list_available_fonts. rewrite Hm.
  destruct (decide (m = ∅)) as [->|_].
  { unfold family_list_of. rewrite lookup_empty. simpl.
    by rewrite filter_nil, take_nil. }
  rewrite <- (Z2Nat.id limit) at 1 by lia.
  rewrite list_fonts_loop_take by (simpl; lia).
  simpl. by rewrite Nat.sub_0_r.
Qed.

(** X11.  For a limit of at least one, [list_available_fonts] returns the
    first [limit] non-empty family names of the catalog, in catalog order,
    each as the dictionary of its name. *)
Theorem list_available_fonts_take (net : network) (limit : Z)
    (m : gmap string (list (gmap string string))) :
  get_google_fonts_metadata net = Some m ->
  (1 <= limit)%Z ->
  list_available_fonts net limit
  = font_dict <$> take (Z.to_nat limit)
                    (filter (fun n => n <> "")
                       (family_of <$> family_list_of m)).
Proof. apply list_available_fonts_first. Qed.

Lemma list_available_fonts_take_witness :
  list_available_fonts
    (serve (catalog_of [entry "Lato"; entry ""; entry "Noto"; entry "Roboto"])
       "") 2
  = font_dict <$> take (Z.to_nat 2)
                    (filter (fun n => n <> "")
                       (family_of <$> family_list_of
                          (catalog_of [entry "Lato"; entry ""; entry "Noto";
                                       entry "Roboto"]))).
Proof.
  apply (list_available_fonts_take
           (serve (catalog_of [entry "Lato"; entry ""; entry "Noto";
                               entry "Roboto"]) "") 2).
  - reflexivity.
  - lia.
Defined.

(** X12.  For a limit of zero or less the loop still runs one round before
    its test: the result is the first row of the catalog when that row has a
    name, and is empty otherwise. *)
Theorem list_available_fonts_nonpositive (net : network) (limit : Z)
    (m : gmap string (list (gmap string string))) :
  get_google_fonts_metadata net = Some m ->
  (limit <= 0)%Z ->
  list_available_fonts net limit
  = font_dict <$> filter (fun n => n <> "")
                    (take 1 (family_of <$> family_list_of m)).
Proof.
  intros Hm Hl. unfold list_available_fonts. rewrite Hm.
  destruct (decide (m = ∅)) as [->|_].
  { unfold family_list_of. by rewrite lookup_empty. }
  destruct (family_list_of m) as [|fd rows]; [done|].
  cbn [list_fonts_loop fmap list_fmap take].
  destruct (Py.truthy (family_of fd)) eqn:Ht.
  - apply truthy_true in Ht. rewrite filter_cons_True by done.
    assert ((limit <=? Z.of_nat (length ([] ++ [font_dict (family_of fd)])))%Z
            = true) as -> by (apply Z.leb_le; simpl; lia).
    done.
  - assert (family_of fd = "") as Hempty
      by (destruct (family_of fd); [done|discriminate Ht]).
    rewrite filter_cons_False by (intros H; by apply H).
    assert ((limit <=? Z.of_nat (length (@nil (gmap string string))))%Z
            = true) as -> by (apply Z.leb_le; simpl; lia).
    done.
Qed.

Lemma list_available_fonts_nonpositive_witness :
  list_available_fonts
    (serve (catalog_of [entry "Lato"; entry "Noto"]) "") 0
  = font_dict <$> filter (fun n => n <> "")
                    (take 1 (family_of <$> family_list_of
                               (catalog_of [entry "Lato"; entry "Noto"]))).
Proof.
  apply (list_available_fonts_nonpositive
           (serve (catalog_of [entry "Lato"; entry "Noto"]) "") 0).
  - reflexivity.
  - lia.
Defined.

Lemma list_fonts_loop_shape (limit : Z) (rows : list (gmap string string))
    (acc : list (gmap string string)) :
  exists names,
    list_fonts_loop limit rows acc = acc ++ (font_dict <$> names)
    /\ Forall (fun n => n <> "") names
    /\ names `sublist_of` (family_of <$> rows)
    /\ (Z.of_nat (length acc + length names)
        <= Z.max limit (Z.of_nat (length acc + 1)))%Z.
Proof.
  revert acc. induction rows as [|fd rows IH]; intros acc; simpl.
  - exists []. rewrite app_nil_r. split_and!; [done|constructor|done|simpl; lia].
  - destruct (Py.truthy (family_of fd)) eqn:Ht.
    + apply truthy_true in Ht.
      destruct (Z.leb_spec limit (Z.of_nat (length (acc ++ [font_dict (family_of fd)])))).
      * exists [family_of fd]. split_and!; [done|by repeat constructor| |simpl; lia].
        apply sublist_skip. apply sublist_nil_l.
      * destruct (IH (acc ++ [font_dict (family_of fd)]))
          as (names & -> & Hne & Hsub & Hlen).
        exists (family_of fd :: names). rewrite length_app in *. simpl in *.
        split_and!; [by rewrite <- (assoc_L (++))|by constructor
                    |by apply sublist_skip|lia].
    + destruct (Z.leb_spec limit (Z.of_nat (length acc))).
      * exists []. rewrite app_nil_r.
        split_and!; [done|constructor|apply sublist_nil_l|simpl; lia].
      * destruct (IH acc) as (names & -> & Hne & Hsub & Hlen).
        exists names. split_and!; [done|done|by apply sublist_cons|lia].
Qed.

Lemma list_available_fonts_names (net : network) (limit : Z) :
  exists names,
    list_available_fonts net limit = font_dict <$> names
    /\ Forall (fun n => n <> "") names
    /\ names `sublist_of`
         (family_of <$> default [] (family_list_of
                                      <$> get_google_fonts_metadata net))
    /\ length names <= Z.to_nat (Z.max limit 1).
Proof.
  unfold list_available_fonts.
  destruct (get_google_fonts_metadata net) as [m|]; simpl.
  2:{ exists []. split_and!; [done|constructor|done|simpl; lia]. }
  destruct (decide (m = ∅)).
  { exists []. split_and!; [done|constructor|apply sublist_nil_l|simpl; lia]. }
  destruct (list_fonts_loop_shape limit (family_list_of m) [])
    as (names & -> & Hne & Hsub & Hlen).
  exists names. simpl in *. split_and!; [done|done|done|lia].
Qed.


(** ** The request URL and the font key *)

Lemma replace_chars (old new : ascii) (s : string) :
  chars (Py.replace old new s)
  = (fun c => if Ascii.eqb c old then new else c) <$> chars s.
Proof. induction s as [|c s IH]; simpl; [done|]. f_equal. apply IH. Qed.

Lemma replace_removes (old new : ascii) (s : string) :
  new <> old -> Forall (fun c => c <> old) (chars (Py.replace old new s)).
Proof.
  intros Hne. rewrite replace_chars. apply Forall_fmap, Forall_true.
  intros c. simpl. by destruct (Ascii.eqb_spec c old).
Qed.

Lemma replace_keeps (P : ascii -> Prop) (old new : ascii) (s : string) :
  P new -> Forall P (chars s) -> Forall P (chars (Py.replace old new s)).
Proof.
  intros Hnew Hs. rewrite replace_chars. apply Forall_fmap.
  eapply Forall_impl; [exact Hs|]. intros c Hc. simpl.
  by destruct (Ascii.eqb c old).
Qed.

(** X14.  The stylesheet request URL is the fixed prefix, the resolved
    family name with each space replaced by [+] and every other character
    as it is, and the fixed suffix; so the URL never contains a space. *)
Theorem css_url_no_space (correct_family_name : string) :
  chars (css_url correct_family_name)
  = chars "https://fonts.googleapis.com/css2?family="
    ++ ((fun c => if Ascii.eqb c " " then "+"%char else c)
          <$> chars correct_family_name)
    ++ chars ":wght@400;700&display=swap"
  /\ Forall (fun c => c <> " "%char) (chars (css_url correct_family_name)).
Proof.
  unfold css_url. rewrite !chars_app. split.
  - by rewrite replace_chars.
  - repeat apply Forall_app_2.
    + apply Forall_forall. intros c Hc Heq. subst c.
      vm_compute in Hc. by repeat (apply elem_of_cons in Hc as [Hc|Hc]; [done|]);
        apply elem_of_nil in Hc.
    + by apply replace_removes.
    + apply Forall_forall. intros c Hc Heq. subst c.
      vm_compute in Hc. by repeat (apply elem_of_cons in Hc as [Hc|Hc]; [done|]);
        apply elem_of_nil in Hc.
Qed.

Lemma font_key_chars (family_name : string) :
  chars (font_key_of family_name)
  = chars "preview_"
    ++ ((fun c => if Ascii.eqb c " " || Ascii.eqb c "-" then "_"%char else c)
          <$> chars family_name).
Proof.
  unfold font_key_of. rewrite chars_app, !replace_chars. f_equal.
  rewrite <- list_fmap_compose. apply list_fmap_ext. intros _ c _. simpl.
  destruct (Ascii.eqb_spec c " ") as [->|H1]; [done|]. simpl.
  by destruct (Ascii.eqb c "-").
Qed.

(** X15.  The font key keeps every character of the family name except that
    spaces and hyphens become underscores; so the key has no space and no
    hyphen, and family names that differ only in spaces, hyphens and
    underscores get the same key. *)
Theorem font_key_normal_form (family_name : string) :
  chars (font_key_of family_name)
  = chars "preview_"
    ++ ((fun c => if Ascii.eqb c " " || Ascii.eqb c "-" then "_"%char else c)
          <$> chars family_name)
  /\ Forall (fun c => c <> " "%char /\ c <> "-"%char)
       (chars (font_key_of family_name))
  /\ font_key_of (Py.replace " " "-" family_name) = font_key_of family_name
  /\ font_key_of (Py.replace "-" " " family_name) = font_key_of family_name
  /\ font_key_of (Py.replace " " "_" family_name) = font_key_of family_name
  /\ font_key_of (Py.replace "-" "_" family_name) = font_key_of family_name.
Proof.
  assert (forall old new : ascii,
            (if Ascii.eqb new " " || Ascii.eqb new "-" then "_"%char else new)
            = "_"%char ->
            (Ascii.eqb old " " || Ascii.eqb old "-" = true) ->
            font_key_of (Py.replace old new family_name)
            = font_key_of family_name) as Hsame.
  { intros old new Hnew Hold. apply chars_inj.
    rewrite !font_key_chars, replace_chars. f_equal.
    rewrite <- list_fmap_compose. apply list_fmap_ext. intros _ c _. simpl.
    destruct (Ascii.eqb_spec c old) as [->|Hne]; [|done].
    by rewrite Hnew, Hold. }
  split_and!; [apply font_key_chars| |by apply Hsame..].
  rewrite font_key_chars. apply Forall_app_2.
  - repeat constructor; discriminate.
  - apply Forall_fmap, Forall_true. intros c. simpl.
    destruct (Ascii.eqb_spec c " ") as [->|H1]; simpl; [by split|].
    destruct (Ascii.eqb_spec c "-") as [->|H2]; by split.
Qed.

(** ** [filter_fonts] *)

Lemma item_font_dict (n : string) :
  item (font_dict n) "family" = n /\ item (font_dict n) "display_name" = n.
Proof. unfold item, font_dict. by simplify_map_eq. Qed.

Lemma matching_fonts_names (search_term : string) (names : list string) :
  matching_fonts search_term (font_dict <$> names)
  = font_dict <$> filter (fun n => Py.contains (Py.lower search_term)
                                      (Py.lower n) = true) names.
Proof.
  unfold matching_fonts. induction names as [|n names IH]; [done|].
  rewrite fmap_cons.
  destruct (Py.contains (Py.lower search_term) (Py.lower n)) eqn:E.
  - rewrite !filter_cons_True, fmap_cons, IH;
      [done|done|by rewrite (proj1 (item_font_dict n))].
  - rewrite !filter_cons_False, IH;
      [done|congruence|rewrite (proj1 (item_font_dict n)); congruence].
Qed.

(** The loop of [filter_fonts] over rows built from family names. *)
Lemma foldl_add_row (names : list string) (controls : list control)
    (c : Threads.config) :
  foldl add_row (controls, c) (font_dict <$> names)
  = (controls ++ (list_tile (Threads.shared c) ∘ font_dict <$> names),
     {| Threads.shared := Threads.shared c;
        Threads.tasks :=
          Threads.tasks c
          ++ ((fun n => {| Threads.task_family := n;
                           Threads.task_key := font_key_of n;
                           Threads.task_pc := Threads.AtCheck |})
                <$> filter (fun n => preview_fonts (Threads.shared c)
                                       !! font_key_of n = None) names) |}).
Proof.
  revert controls c. induction names as [|n names IH]; intros controls c.
  - simpl. rewrite !app_nil_r. by destruct c.
  - rewrite fmap_cons. cbn [foldl]. unfold add_row at 2.
    rewrite (proj1 (item_font_dict n)). cbn [Threads.step].
    destruct (decide (is_Some (preview_fonts (Threads.shared c)
                                 !! font_key_of n))) as [Hin|Hout].
    + cbn [default from_option id]. rewrite IH. rewrite filter_cons_False.
      2:{ intros H. rewrite H in Hin. by destruct Hin. }
      by rewrite fmap_cons, <- (assoc_L (++)).
    + cbn [default from_option id]. rewrite IH.
      cbn [Threads.shared Threads.tasks].
      rewrite filter_cons_True.
      2:{ destruct (preview_fonts (Threads.shared c) !! font_key_of n) eqn:E;
            [|done]. exfalso. apply Hout. by eexists. }
      by rewrite !fmap_cons, <- !(assoc_L (++)).
Qed.

(** [filter_fonts] for a search term that is not blank, by the family names
    that [list_available_fonts(1000)] returned. *)
Lemma filter_fonts_names (net : network) (search_term : string) (v : view)
    (c : Threads.config) (names : list string) :
  Py.strip search_term <> "" ->
  list_available_fonts net 1000 = font_dict <$> names ->
  filter_fonts net search_term v c
  = let found := filter (fun n => Py.contains (Py.lower search_term)
                                    (Py.lower n) = true) names in
    let c1 := Threads.log_request metadata_url c in
    match found with
    | [] =>
        ({| font_list :=
              [Text ("No fonts found containing: " +:+ search_term) true];
            status := "No fonts found" |}, c1)
    | _ :: _ =>
        ({| font_list :=
              list_tile (Threads.shared c1) ∘ font_dict <$> take 15 found;
            status := "Found " +:+ pretty (length found)
                      +:+ " fonts (showing "
                      +:+ pretty (Nat.min 15 (length found)) +:+ ")" |},
         {| Threads.shared := Threads.shared c1;
            Threads.tasks :=
              Threads.tasks c
              ++ ((fun n => {| Threads.task_family := n;
                               Threads.task_key := font_key_of n;
                               Threads.task_pc := Threads.AtCheck |})
                    <$> filter (fun n => preview_fonts (Threads.shared c)
                                           !! font_key_of n = None)
                          (take 15 found)) |})
    end.
Proof.
  intros Hblank Hnames. unfold filter_fonts.
  apply truthy_true in Hblank. rewrite Hblank. cbn [negb].
  rewrite Hnames, matching_fonts_names. cbv zeta.
  destruct (filter _ names) as [|n found] eqn:E; [done|].
  cbn [fmap list_fmap].
  rewrite <- !(fmap_cons font_dict n found).
  rewrite <- fmap_take, foldl_add_row, length_fmap.
  done.
Qed.

(** X16.  For a search term that is not blank and a catalog that could be
    fetched, [filter_fonts] searches the first 1000 non-empty family names
    of the catalog only: the tiles are the first 15 of those names that
    contain the term ignoring case, in catalog order, each drawn in its
    preview font exactly when its key is cached; a load task is started for
    each listed name whose key is not cached; one metadata request is sent
    and the two font dictionaries are left as they are. *)
Theorem filter_fonts_listing (net : network) (search_term : string) (v : view)
    (c : Threads.config) (m : gmap string (list (gmap string string))) :
  Py.strip search_term <> "" ->
  get_google_fonts_metadata net = Some m ->
  let found :=
    filter (fun n => Py.contains (Py.lower search_term) (Py.lower n) = true)
      (take 1000 (filter (fun n => n <> "")
                    (family_of <$> family_list_of m))) in
  let r := filter_fonts net search_term v c in
  Threads.shared r.2
  = {| preview_fonts := preview_fonts (Threads.shared c);
       page_fonts := page_fonts (Threads.shared c);
       requests := requests (Threads.shared c) ++ [metadata_url] |}
  /\ (found = [] ->
      r.1 = {| font_list :=
                 [Text ("No fonts found containing: " +:+ search_term) true];
               status := "No fonts found" |}
      /\ Threads.tasks r.2 = Threads.tasks c)
  /\ (found <> [] ->
      font_list r.1
      = (fun n => ListTile n n
                    (if decide (is_Some (preview_fonts (Threads.shared c)
                                           !! font_key_of n))
                     then Some (font_key_of n) else None))
          <$> take 15 found
      /\ Threads.tasks r.2
         = Threads.tasks c
           ++ ((fun n => {| Threads.task_family := n;
                            Threads.task_key := font_key_of n;
                            Threads.task_pc := Threads.AtCheck |})
                 <$> filter (fun n => preview_fonts (Threads.shared c)
                                        !! font_key_of n = None)
                       (take 15 found))).
Proof.
  intros Hblank Hm found r. subst r.
  rewrite (filter_fonts_names net search_term v c
             (take 1000 (filter (fun n => n <> "")
                           (family_of <$> family_list_of m))) Hblank)
    by (by apply (list_available_fonts_first net 1000 m)).
  cbv zeta. fold found. destruct found as [|n found'].
  - split_and!; [done|done|done].
  - cbn [fst snd Threads.shared Threads.tasks font_list Threads.log_request
         Threads.set_pc].
    split_and!; [done|done|]. intros _. split; [|done].
    apply list_fmap_ext. intros _ x _. unfold list_tile. simpl.
    by rewrite !(proj1 (item_font_dict x)), (proj2 (item_font_dict x)).
Qed.

Lemma filter_fonts_listing_witness :
  let net := serve (catalog_of [entry "Roboto"; entry ""; entry "Noto";
                                entry "Roboto Mono"]) "" in
  let r := filter_fonts net "rob" {| font_list := []; status := "" |}
             Threads.initial in
  font_list r.1 = [ListTile "Roboto" "Roboto" None;
                   ListTile "Roboto Mono" "Roboto Mono" None]
  /\ Threads.task_family <$> Threads.tasks r.2 = ["Roboto"; "Roboto Mono"].
Proof.
  intros net r.
  destruct (filter_fonts_listing net "rob" {| font_list := []; status := "" |}
              Threads.initial
              (catalog_of [entry "Roboto"; entry ""; entry "Noto";
                           entry "Roboto Mono"]))
    as (_ & _ & H); [done|reflexivity|].
  destruct H as [H1 H2]; [vm_compute; discriminate|].
  subst r. rewrite H1, H2. split; vm_compute; reflexivity.
Defined.

(** Every tile stands for a named row of the fetched catalog whose name
    contains the search term ignoring case. *)
Lemma filter_fonts_tile (net : network) (search_term : string) (v : view)
    (c : Threads.config) (t s : string) (k : option string) :
  ListTile t s k ∈ font_list (filter_fonts net search_term v c).1 ->
  exists m fd,
    get_google_fonts_metadata net = Some m
    /\ fd ∈ family_list_of m
    /\ family_of fd = s
    /\ t = s
    /\ s <> ""
    /\ Py.contains (Py.lower search_term) (Py.lower s) = true
    /\ k = if decide (is_Some (preview_fonts (Threads.shared c)
                                 !! font_key_of s))
           then Some (font_key_of s) else None.
Proof.
  destruct (decide (Py.strip search_term = "")) as [Hb|Hb].
  { unfold filter_fonts. rewrite Hb. simpl.
    intros H%list_elem_of_singleton. discriminate H. }
  destruct (list_available_fonts_names net 1000)
    as (names & Hnames & Hne & Hsub & _).
  rewrite (filter_fonts_names net search_term v c names Hb Hnames). cbv zeta.
  destruct (filter _ names) as [|n found] eqn:E.
  { simpl. intros H%list_elem_of_singleton. discriminate H. }
  cbn [fst font_list].
  intros (x & Hx & Hin)%list_elem_of_fmap.
  apply subseteq_take in Hin. rewrite <- E in Hin.
  apply list_elem_of_filter in Hin as [Hc Hin].
  unfold list_tile, compose in Hx.
  rewrite !(proj1 (item_font_dict x)), (proj2 (item_font_dict x)) in Hx.
  injection Hx as -> -> ->.
  assert (x <> "") as Hxne
    by (by apply (proj1 (Forall_forall _ _) Hne)).
  apply (sublist_subseteq _ _ Hsub) in Hin.
  destruct (get_google_fonts_metadata net) as [m|]; simpl in Hin;
    [|by apply elem_of_nil in Hin].
  apply list_elem_of_fmap in Hin as (fd & -> & Hfd).
  exists m, fd. by split_and!.
Qed.


Lemma exact_pass_member (fd : gmap string string)
    (rows : list (gmap string string)) :
  fd ∈ rows ->
  exists n, exact_pass (Py.lower (family_of fd)) rows = Some n
    /\ Py.lower n = Py.lower (family_of fd).
Proof.
  intros Hin.
  destruct (exact_pass (Py.lower (family_of fd)) rows) as [n|] eqn:E.
  - exists n. split; [done|].
    by apply exact_pass_Some in E as (_ & _ & _ & H).
  - exfalso. by apply (proj1 (exact_pass_None _ _) E fd Hin).
Qed.

(** X18.  Every family that [filter_fonts] lists can be resolved: with the
    same answer of the metadata endpoint, [find_font_family] applied to the
    subtitle of a tile returns a family name equal to it ignoring case, so
    [get_font_urls] for a listed family fails only when the stylesheet
    request fails. *)
Theorem listed_family_resolves (net : network) (search_term : string)
    (v : view) (c : Threads.config) (t s : string) (k : option string) :
  ListTile t s k ∈ font_list (filter_fonts net search_term v c).1 ->
  exists n,
    find_font_family net s None = Some n
    /\ Py.lower n = Py.lower s
    /\ get_font_urls net s
       = (fun css_content => parse_stylesheet s css_content)
           <$> get_text net (css_url n).
Proof.
  intros (m & fd & Hm & Hfd & <- & _ & Hne & _)%filter_fonts_tile.
  destruct (exact_pass_member fd (family_list_of m) Hfd) as (n & Hn & Hl).
  assert (find_font_family net (family_of fd) None = Some n) as Hfind.
  { unfold find_font_family. rewrite Hm.
    destruct (decide (m = ∅)) as [->|_].
    - unfold family_list_of in Hfd. rewrite lookup_empty in Hfd.
      by apply elem_of_nil in Hfd.
    - by rewrite Hn. }
  exists n. split_and!; [done|done|].
  unfold get_font_urls. rewrite Hfind.
  assert (Py.truthy n = true) as ->.
  { apply truthy_true. intros ->. simpl in Hl. symmetry in Hl.
    by apply (proj1 (lower_empty_iff _)) in Hl. }
  simpl. by destruct (get_text net (css_url n)).
Qed.

Lemma listed_family_resolves_witness :
  exists n,
    find_font_family (serve (catalog_of [entry "Roboto"]) block_example)
      "Roboto" None = Some n
    /\ Py.lower n = Py.lower "Roboto"
    /\ get_font_urls (serve (catalog_of [entry "Roboto"]) block_example)
         "Roboto"
       = (fun css_content => parse_stylesheet "Roboto" css_content)
           <$> get_text (serve (catalog_of [entry "Roboto"]) block_example)
                 (css_url n).
Proof.
  apply (listed_family_resolves
           (serve (catalog_of [entry "Roboto"]) block_example) "rob"
           {| font_list := []; status := "" |} Threads.initial
           "Roboto" "Roboto" None).
  vm_compute. left.
Defined.

(** ** [new_font] *)

Lemma dyn_get_font_urls_Some (net : Dyn.network) (q : string)
    (info : font_info) :
  Dyn.get_font_urls net q = Dyn.Return (Some info) ->
  exists c css_content,
    Dyn.find_font_family net q Dyn.JNull = Dyn.Return (Some c)
    /\ Py.truthy c = true
    /\ Dyn.get_text net (css_url c) = Dyn.Body css_content
    /\ info = parse_stylesheet q css_content.
Proof.
  unfold Dyn.get_font_urls.
  destruct (Dyn.find_font_family net q Dyn.JNull) as [[c|]|e]; try done.
  cbn [mbind Dyn.result_bind].
  destruct (Py.truthy c) eqn:Ht; [|done]. cbn [negb].
  destruct (Dyn.get_text net (css_url c)) as [css| |e] eqn:Hcss; try done.
  intros H. injection H as <-. by exists c, css.
Qed.

Lemma dyn_show_font_options (net : Dyn.network) (q : string) :
  Dyn.show_font_options net q = Dyn.get_font_urls net q.
Proof.
  unfold Dyn.show_font_options.
  by destruct (Dyn.get_font_urls net q) as [[info|]|e].
Qed.

(** The requests of one call of [get_font_urls]: the metadata document,
    and the stylesheet when the resolver returned a non-empty name. *)
Lemma dyn_requests_cases (net : Dyn.network) (q : string) :
  Dyn.requests_of_get_font_urls net q = [metadata_url]
  \/ exists c,
       Dyn.find_font_family net q Dyn.JNull = Dyn.Return (Some c)
       /\ c <> ""
       /\ Dyn.requests_of_get_font_urls net q = [metadata_url; css_url c].
Proof.
  unfold Dyn.requests_of_get_font_urls.
  destruct (Dyn.find_font_family net q Dyn.JNull) as [[c|]|e];
    [|by left|by left].
  destruct (Py.truthy c) eqn:Ht; [|by left].
  right. exists c. split_and!; [done|by apply truthy_true|done].
Qed.

(** *** Well-formed metadata raises nothing *)











(** X30.  A metadata document whose family list starts with a value that
    is not an object makes the resolver raise [AttributeError] on
    [font_data.get], for every query; the exception escapes
    [get_font_urls], after the one metadata request, and [new_font] ends in
    its handler: the status shows the text of the exception, and the font
    dictionaries and the theme font are as before. *)
Theorem new_font_shows_exception (net1 net2 : Dyn.network)
    (items : list (string * Dyn.json)) (v : Dyn.json)
    (rest : list Dyn.json) (name : string) (p : page) :
  Dyn.get_json net1 metadata_url = Dyn.Body (Dyn.JDict items) ->
  Dyn.lookup_item "familyMetadataList" items = Some (Dyn.JList (v :: rest)) ->
  (forall d, v <> Dyn.JDict d) ->
  Py.strip name <> "" ->
  let p' := new_font net1 net2 name p in
  Dyn.get_font_urls net1 name
  = Dyn.Raise ("'" +:+ Dyn.type_name v +:+ "' object has no attribute 'get'")
  /\ status_text p'
     = "Error loading font: '" +:+ Dyn.type_name v
       +:+ "' object has no attribute 'get'"
  /\ preview_fonts (page_session p') = preview_fonts (page_session p)
  /\ page_fonts (page_session p') = page_fonts (page_session p)
  /\ theme_font_family p' = theme_font_family p
  /\ requests (page_session p') = requests (page_session p) ++ [metadata_url].
Proof.
  intros Hj Hl Hv Hb%truthy_true.
  assert (Dyn.find_font_family net1 name Dyn.JNull
          = Dyn.Raise (Dyn.no_attribute v "get")) as Hf.
  { unfold Dyn.find_font_family, Dyn.get_google_fonts_metadata.
    rewrite Hj. cbn [mbind Dyn.result_bind Dyn.truthy].
    rewrite bool_decide_false by (by destruct items).
    cbn [negb Dyn.get]. rewrite Hl.
    cbn [from_option id mbind Dyn.result_bind Dyn.iter Dyn.exact_pass].
    destruct v; try done. by destruct (Hv items0). }
  assert (Dyn.get_font_urls net1 name
          = Dyn.Raise (Dyn.no_attribute v "get")) as Hg.
  { unfold Dyn.get_font_urls. by rewrite Hf. }
  assert (Dyn.no_attribute v "get"
          = "'" +:+ Dyn.type_name v +:+ "' object has no attribute 'get'")
    as Hm by (by destruct v).
  intros p'. subst p'. unfold new_font. rewrite Hb, Hg. cbn [negb].
  unfold Dyn.requests_of_get_font_urls. rewrite Hf, <- Hm.
  by split_and!.
Qed.

Lemma new_font_shows_exception_witness :
  let p' := new_font untyped_rows untyped_rows "Roboto" initial_page in
  Dyn.get_font_urls untyped_rows "Roboto"
  = Dyn.Raise ("'" +:+ Dyn.type_name (Dyn.JInt 7)
               +:+ "' object has no attribute 'get'")
  /\ status_text p'
     = "Error loading font: '" +:+ Dyn.type_name (Dyn.JInt 7)
       +:+ "' object has no attribute 'get'"
  /\ preview_fonts (page_session p') = preview_fonts (page_session initial_page)
  /\ page_fonts (page_session p') = page_fonts (page_session initial_page)
  /\ theme_font_family p' = theme_font_family initial_page
  /\ requests (page_session p')
     = requests (page_session initial_page) ++ [metadata_url].
Proof.
  apply (new_font_shows_exception untyped_rows untyped_rows
           [("familyMetadataList", Dyn.JList [Dyn.JInt 7])]
           (Dyn.JInt 7) [] "Roboto" initial_page).
  - reflexivity.
  - reflexivity.
  - discriminate.
  - discriminate.
Defined.

(** *** The outcomes of [new_font] *)

(** X19.  [new_font] never touches the preview cache, and it ends in one of
    these ways.  Applied: the name is not blank, the first call of
    [get_font_urls] returned at least one URL, [page.fonts] is exactly the
    one-entry dictionary from the name as typed to the first URL and the
    theme font is that name; the status says so when the second call of
    [get_font_urls] returns, and shows an error when an exception escapes
    the second call, although the font has been applied.  Not applied:
    [page.fonts] and the theme font are unchanged, and the status asks for
    a name (nothing was requested), reports that the font could not be
    loaded (the first call returned no URL), or shows the text of the
    exception that escaped the first call. *)
Theorem new_font_outcome (net1 net2 : Dyn.network) (name : string)
    (p : page) :
  let p' := new_font net1 net2 name p in
  preview_fonts (page_session p') = preview_fonts (page_session p)
  /\ ((exists info url rest,
         Py.strip name <> ""
         /\ Dyn.get_font_urls net1 name = Dyn.Return (Some info)
         /\ all_urls info = url :: rest
         /\ page_fonts (page_session p') = {[ name := url ]}
         /\ theme_font_family p' = Some name
         /\ ((exists r, Dyn.get_font_urls net2 name = Dyn.Return r)
             /\ status_text p' = "Font applied: " +:+ name
             \/ exists message,
                  Dyn.get_font_urls net2 name = Dyn.Raise message
                  /\ status_text p' = "Error loading font: " +:+ message))
      \/ (page_fonts (page_session p') = page_fonts (page_session p)
          /\ theme_font_family p' = theme_font_family p
          /\ (Py.strip name = ""
              /\ requests (page_session p') = requests (page_session p)
              /\ status_text p' = "Please enter a font name"
              \/ Py.strip name <> ""
                 /\ (exists r,
                       Dyn.get_font_urls net1 name = Dyn.Return r
                       /\ from_option all_urls [] r = [])
                 /\ status_text p' = "Could not load font: " +:+ name
              \/ Py.strip name <> ""
                 /\ exists message,
                      Dyn.get_font_urls net1 name = Dyn.Raise message
                      /\ status_text p'
                         = "Error loading font: " +:+ message))).
Proof.
  unfold new_font.
  destruct (Py.truthy (Py.strip name)) eqn:Hb; cbn [negb].
  2:{ simpl. split; [done|]. right. split_and!; [done|done|]. left.
      split_and!; [|done|done].
      destruct (Py.strip name); [done|discriminate Hb]. }
  apply truthy_true in Hb.
  destruct (Dyn.get_font_urls net1 name) as [[info|]|e] eqn:Hg.
  - destruct (all_urls info) as [|url rest] eqn:Hu.
    + simpl. split; [done|]. right. split_and!; [done|done|].
      right. left. split_and!; [done| |done]. exists (Some info). by split.
    + simpl. split; [done|]. left. exists info, url, rest.
      split_and!; [done|done|done|done|done|].
      rewrite dyn_show_font_options.
      destruct (Dyn.get_font_urls net2 name) as [r|e].
      * left. split; [by exists r|done].
      * right. by exists e.
  - simpl. split; [done|]. right. split_and!; [done|done|].
    right. left. split_and!; [done| |done]. exists None. by split.
  - simpl. split; [done|]. right. split_and!; [done|done|].
    right. right. split; [done|]. by exists e.
Qed.

(** X20.  When [new_font] applies a font, [get_font_urls] has run twice,
    the second time through [show_font_options], and each run sent its own
    requests: the metadata document and the stylesheet of the resolved
    family on line 144, then the metadata document again and, when the
    second resolution gives a name, the stylesheet of that name.  So three
    or four requests are sent, four to the same two addresses when the
    second resolution gives the same name.  What the second run returns is
    not used: the dictionaries and the theme font are the same whatever the
    second run is answered. *)
Theorem new_font_requests_twice (net1 net2 : Dyn.network) (name : string)
    (p : page) (info : font_info) :
  Py.strip name <> "" ->
  Dyn.get_font_urls net1 name = Dyn.Return (Some info) ->
  all_urls info <> [] ->
  exists c1,
    Dyn.find_font_family net1 name Dyn.JNull = Dyn.Return (Some c1)
    /\ requests (page_session (new_font net1 net2 name p))
       = requests (page_session p)
         ++ [metadata_url; css_url c1]
         ++ Dyn.requests_of_get_font_urls net2 name
    /\ (Dyn.requests_of_get_font_urls net2 name = [metadata_url]
        \/ exists c2,
             Dyn.find_font_family net2 name Dyn.JNull = Dyn.Return (Some c2)
             /\ c2 <> ""
             /\ Dyn.requests_of_get_font_urls net2 name
                = [metadata_url; css_url c2])
    /\ (Dyn.find_font_family net2 name Dyn.JNull = Dyn.Return (Some c1) ->
        requests (page_session (new_font net1 net2 name p))
        = requests (page_session p)
          ++ [metadata_url; css_url c1; metadata_url; css_url c1])
    /\ (forall net2',
          preview_fonts (page_session (new_font net1 net2' name p))
          = preview_fonts (page_session (new_font net1 net2 name p))
          /\ page_fonts (page_session (new_font net1 net2' name p))
             = page_fonts (page_session (new_font net1 net2 name p))
          /\ theme_font_family (new_font net1 net2' name p)
             = theme_font_family (new_font net1 net2 name p)).
Proof.
  intros Hb%truthy_true Hg Hu. unfold new_font. rewrite Hb, Hg. cbn [negb].
  destruct (all_urls info) as [|url rest]; [done|].
  apply dyn_get_font_urls_Some in Hg as (c & css & Hc & Ht & _ & _).
  exists c. split; [done|].
  assert (Dyn.requests_of_get_font_urls net1 name
          = [metadata_url; css_url c]) as Hr1.
  { unfold Dyn.requests_of_get_font_urls. by rewrite Hc, Ht. }
  split_and!.
  - simpl. rewrite Hr1. by rewrite <- (assoc_L (++)).
  - apply dyn_requests_cases.
  - intros Hc2. simpl. rewrite Hr1.
    unfold Dyn.requests_of_get_font_urls at 1. rewrite Hc2, Ht.
    by rewrite <- (assoc_L (++)).
  - done.
Qed.

Lemma new_font_requests_twice_witness :
  exists c1,
    Dyn.find_font_family
      (dyn_network (serve (catalog_of [entry "Roboto"]) block_example))
      "rob" Dyn.JNull = Dyn.Return (Some c1)
    /\ requests (page_session
                   (new_font
                      (dyn_network
                         (serve (catalog_of [entry "Roboto"]) block_example))
                      untyped_rows "rob" initial_page))
       = requests (page_session initial_page)
         ++ [metadata_url; css_url c1]
         ++ Dyn.requests_of_get_font_urls untyped_rows "rob"
    /\ Dyn.requests_of_get_font_urls untyped_rows "rob" = [metadata_url].
Proof.
  destruct (new_font_requests_twice
              (dyn_network (serve (catalog_of [entry "Roboto"]) block_example))
              untyped_rows "rob" initial_page
              (parse_stylesheet "rob" block_example))
    as (c1 & H1 & H2 & _).
  - discriminate.
  - vm_compute. reflexivity.
  - vm_compute. discriminate.
  - exists c1. split_and!; [done|done|vm_compute; reflexivity].
Defined.

(** X21.  Applying a font drops the loaded previews from [page.fonts] while
    [page._preview_fonts] keeps them: a key that was cached before is still
    cached afterwards but is no longer registered in [page.fonts], and a
    later preview request for its family does not register it again.  This
    is so whatever the second run of [get_font_urls] comes to. *)
Theorem new_font_drops_previews (net1 net2 : Dyn.network) (net' : network)
    (name family_name u : string) (p : page) (info : font_info) :
  Py.strip name <> "" ->
  Dyn.get_font_urls net1 name = Dyn.Return (Some info) ->
  all_urls info <> [] ->
  preview_fonts (page_session p) !! font_key_of family_name = Some u ->
  name <> font_key_of family_name ->
  let s := page_session (new_font net1 net2 name p) in
  preview_fonts s !! font_key_of family_name = Some u
  /\ page_fonts s !! font_key_of family_name = None
  /\ request_preview net' family_name s = s.
Proof.
  intros Hb%truthy_true Hg Hu Hk Hne. unfold new_font.
  rewrite Hb, Hg. cbn [negb].
  destruct (all_urls info) as [|url rest]; [done|]. simpl.
  split_and!; [done|by rewrite lookup_singleton_ne|].
  unfold request_preview. simpl. rewrite decide_True; [done|]. by eexists.
Qed.

Lemma new_font_drops_previews_witness :
  let s := page_session
             (new_font
                (dyn_network
                   (serve (catalog_of [entry "Roboto"]) block_example))
                untyped_rows "Roboto"
                {| page_session := roboto_cached;
                   theme_font_family := None;
                   status_text := "" |}) in
  preview_fonts s !! font_key_of "Roboto" = Some "https://x/y.woff2"
  /\ page_fonts s !! font_key_of "Roboto" = None
  /\ request_preview no_network "Roboto" s = s.
Proof.
  apply (new_font_drops_previews
           (dyn_network (serve (catalog_of [entry "Roboto"]) block_example))
           untyped_rows no_network
           "Roboto" "Roboto" "https://x/y.woff2"
           {| page_session := roboto_cached;
              theme_font_family := None;
              status_text := "" |}
           (parse_stylesheet "Roboto" block_example)).
  - discriminate.
  - vm_compute. reflexivity.
  - vm_compute. discriminate.
  - apply roboto_cached_lookup.
  - vm_compute. discriminate.
Defined.

(** ** More on the preview cache *)

(** X22.  When the key of a family is not cached and [get_font_urls] returns
    at least one URL, a preview request stores the first URL under the key
    in both dictionaries and changes no other key; the stored URL occurs as
    [src: url(...)] in the stylesheet that was fetched, and exactly two
    requests were sent. *)
Theorem request_preview_loads (net : network) (family_name url : string)
    (rest : list string) (info : font_info) (s : session) :
  preview_fonts s !! font_key_of family_name = None ->
  get_font_urls net family_name = Some info ->
  all_urls info = url :: rest ->
  let s' := request_preview net family_name s in
  preview_fonts s' = <[font_key_of family_name := url]> (preview_fonts s)
  /\ page_fonts s' = <[font_key_of family_name := url]> (page_fonts s)
  /\ exists c css_content,
       find_font_family net family_name None = Some c
       /\ get_text net (css_url c) = Some css_content
       /\ url_occurrence url css_content
       /\ requests s' = requests s ++ [metadata_url; css_url c].
Proof.
  intros Hk Hg Hu. unfold request_preview, load_font.
  rewrite !decide_False by (rewrite Hk; by intros [? ?]).
  rewrite Hg, Hu. simpl. split_and!; [done|done|].
  apply get_font_urls_Some in Hg as (c & css & Hc & Ht & Hcss & ->).
  exists c, css. split_and!; [done|done| |].
  - apply url_matches_occurrence.
    apply (proj1 (elem_of_list_set _ _)).
    unfold parse_stylesheet in Hu. simpl in Hu. rewrite Hu. left.
  - unfold requests_of_get_font_urls. by rewrite Hc, Ht.
Qed.

Lemma request_preview_loads_witness :
  let s' := request_preview
              (serve (catalog_of [entry "Roboto"]) block_example)
              "Roboto" initial_session in
  preview_fonts s'
  = <[font_key_of "Roboto" := "https://x/y.woff2"]>
      (preview_fonts initial_session)
  /\ page_fonts s'
     = <[font_key_of "Roboto" := "https://x/y.woff2"]>
         (page_fonts initial_session)
  /\ exists c css_content,
       find_font_family (serve (catalog_of [entry "Roboto"]) block_example)
         "Roboto" None = Some c
       /\ get_text (serve (catalog_of [entry "Roboto"]) block_example)
            (css_url c) = Some css_content
       /\ url_occurrence "https://x/y.woff2" css_content
       /\ requests s' = requests initial_session ++ [metadata_url; css_url c].
Proof.
  apply (request_preview_loads
           (serve (catalog_of [entry "Roboto"]) block_example)
           "Roboto" "https://x/y.woff2" []
           (parse_stylesheet "Roboto" block_example) initial_session).
  - reflexivity.
  - reflexivity.
  - vm_compute. reflexivity.
Defined.

(** The dictionaries after a preview request depend on the dictionaries
    before it only, not on the request log. *)
Lemma request_preview_dicts (net : network) (family_name : string)
    (s1 s2 : session) :
  preview_fonts s1 = preview_fonts s2 ->
  page_fonts s1 = page_fonts s2 ->
  preview_fonts (request_preview net family_name s1)
  = preview_fonts (request_preview net family_name s2)
  /\ page_fonts (request_preview net family_name s1)
     = page_fonts (request_preview net family_name s2).
Proof.
  intros H1 H2. unfold request_preview, load_font. rewrite H1.
  destruct (decide (is_Some (preview_fonts s2
                               !! font_key_of family_name))); [done|].
  destruct (get_font_urls net family_name) as [info|]; [|done].
  destruct (all_urls info); [done|]. simpl. by rewrite H2.
Qed.

(** X23.  A preview request that gets no URL (the resolution or a request
    failed, or the stylesheet has no [src: url(...)]) leaves both
    dictionaries as they are: the failure is not cached, and a later request
    for the same family loads the preview as a first request would. *)
Theorem request_preview_failure_not_cached (net net2 : network)
    (family_name : string) (s : session) :
  from_option all_urls [] (get_font_urls net family_name) = [] ->
  let s' := request_preview net family_name s in
  preview_fonts s' = preview_fonts s
  /\ page_fonts s' = page_fonts s
  /\ preview_fonts (request_preview net2 family_name s')
     = preview_fonts (request_preview net2 family_name s)
  /\ page_fonts (request_preview net2 family_name s')
     = page_fonts (request_preview net2 family_name s).
Proof.
  intros Hfail.
  assert (let s' := request_preview net family_name s in
          preview_fonts s' = preview_fonts s
          /\ page_fonts s' = page_fonts s) as [H1 H2].
  { unfold request_preview, load_font.
    destruct (decide (is_Some (preview_fonts s
                                 !! font_key_of family_name))); [done|].
    destruct (get_font_urls net family_name) as [info|]; [|done].
    simpl in Hfail. by rewrite Hfail. }
  cbv zeta in *.
  destruct (request_preview_dicts net2 family_name _ _ H1 H2) as [H3 H4].
  by split_and!.
Qed.

Lemma request_preview_failure_not_cached_witness :
  let s' := request_preview no_network "Roboto" initial_session in
  preview_fonts s' = preview_fonts initial_session
  /\ page_fonts s' = page_fonts initial_session
  /\ preview_fonts
       (request_preview (serve (catalog_of [entry "Roboto"]) block_example)
          "Roboto" s')
     = preview_fonts
         (request_preview (serve (catalog_of [entry "Roboto"]) block_example)
            "Roboto" initial_session)
  /\ page_fonts
       (request_preview (serve (catalog_of [entry "Roboto"]) block_example)
          "Roboto" s')
     = page_fonts
         (request_preview (serve (catalog_of [entry "Roboto"]) block_example)
            "Roboto" initial_session).
Proof.
  apply (request_preview_failure_not_cached no_network
           (serve (catalog_of [entry "Roboto"]) block_example)
           "Roboto" initial_session).
  reflexivity.
Defined.




(** ** Invariants of the interleaved tasks *)

Lemma pending_insert_other (k : string) (i : nat) (t t' : Threads.task)
    (c c' : Threads.config) :
  Threads.tasks c !! i = Some t ->
  Threads.between_writes k t = false ->
  Threads.tasks c' = <[i := t']> (Threads.tasks c) ->
  Threads.pending k c -> Threads.pending k c'.
Proof.
  intros Ht Hb Hc' (j & tj & Hj & Hbj). exists j, tj. split; [|done].
  rewrite Hc', list_lookup_insert_ne; [done|]. intros ->. congruence.
Qed.

Lemma pending_insert_new (k : string) (i : nat) (t t' : Threads.task)
    (c c' : Threads.config) :
  Threads.tasks c !! i = Some t ->
  Threads.between_writes k t' = true ->
  Threads.tasks c' = <[i := t']> (Threads.tasks c) ->
  Threads.pending k c'.
Proof.
  intros Ht Hb Hc'. exists i, t'. split; [|done].
  rewrite Hc'. apply list_lookup_insert_eq. by eapply lookup_lt_Some.
Qed.

Lemma between_writes_pc (k : string) (t : Threads.task) :
  (forall u, Threads.task_pc t <> Threads.AtFontsWrite u) ->
  Threads.between_writes k t = false.
Proof.
  intros H. unfold Threads.between_writes.
  destruct (Threads.task_pc t) eqn:E; try done. by destruct (H font_url).
Qed.

Lemma step_invariants (ev : Threads.event) (c c' : Threads.config) :
  Threads.step ev c = Some c' ->
  (Threads.registered c -> Threads.registered c')
  /\ dom (preview_fonts (Threads.shared c))
     ⊆ dom (preview_fonts (Threads.shared c'))
  /\ dom (page_fonts (Threads.shared c))
     ⊆ dom (page_fonts (Threads.shared c'))
  /\ requests (Threads.shared c) `prefix_of` requests (Threads.shared c')
  /\ length (Threads.tasks c) <= length (Threads.tasks c')
  /\ (forall i t, Threads.tasks c !! i = Some t ->
        Threads.task_pc t = Threads.Done ->
        Threads.tasks c' !! i = Some t).
Proof.
  assert (forall i t p,
            Threads.tasks c !! i = Some t ->
            Threads.task_pc t <> Threads.Done ->
            forall j t', Threads.tasks c !! j = Some t' ->
              Threads.task_pc t' = Threads.Done ->
              Threads.tasks (Threads.set_pc i t p c) !! j = Some t') as Hset.
  { intros i t p Ht Hpc j t' Ht' Hd. simpl.
    rewrite list_lookup_insert_ne; [done|]. intros ->. congruence. }
  (* a step that changes neither dictionary and moves task [i] from and to
     a point other than the one between the two writes *)
  assert (forall i t p (c1 : Threads.config),
            Threads.tasks c !! i = Some t ->
            (forall u, Threads.task_pc t <> Threads.AtFontsWrite u) ->
            preview_fonts (Threads.shared c1)
            = preview_fonts (Threads.shared c) ->
            page_fonts (Threads.shared c1) = page_fonts (Threads.shared c) ->
            Threads.tasks c1 = Threads.tasks (Threads.set_pc i t p c) ->
            Threads.registered c -> Threads.registered c1) as Hreg.
  { intros i t p c1 Ht Hpc H1 H2 H3 Hr k. rewrite H1, H2. intros Hk.
    destruct (Hr k Hk) as [?|Hp]; [by left|right].
    eapply (pending_insert_other k i t); [done| |exact H3|done].
    by apply between_writes_pc. }
  destruct ev as [fam|i|i resp|i resp|i|i]; cbn [Threads.step].
  - destruct (decide (is_Some (preview_fonts (Threads.shared c)
                                 !! font_key_of fam))); intros [= <-]; simpl.
    + split_and!; [done|done|done|done|done|done].
    + split_and!; [|done|done|done|rewrite length_app; lia|].
      * intros Hr k Hk. destruct (Hr k Hk) as [?|(j & t & Hj & Hb)];
          [by left|right].
        exists j, t. split; [|done]. simpl. by apply lookup_app_l_Some.
      * intros i t Ht _. by apply lookup_app_l_Some.
  - destruct (Threads.tasks c !! i) as [t|] eqn:Ht; [|done].
    destruct (Threads.task_pc t) eqn:Hpc; try done.
    destruct (decide (is_Some (preview_fonts (Threads.shared c)
                                 !! Threads.task_key t))); intros [= <-].
    + split_and!; [|done|done|done|simpl; by rewrite length_insert|].
      * apply (Hreg i t Threads.Done); try done. congruence.
      * apply Hset; [done|congruence].
    + split_and!; [|done|done|by apply prefix_app_r
                  |simpl; by rewrite length_insert|].
      * apply (Hreg i t Threads.AwaitMetadata); try done. congruence.
      * apply Hset; [done|congruence].
  - destruct (Threads.tasks c !! i) as [t|] eqn:Ht; [|done].
    destruct (Threads.task_pc t) eqn:Hpc; try done.
    destruct (find_font_family _ _ _) as [cn|];
      [destruct (Py.truthy cn)|]; intros [= <-].
    + split_and!; [|done|done|by apply prefix_app_r
                  |simpl; by rewrite length_insert|].
      * apply (Hreg i t (Threads.AwaitStylesheet (css_url cn))); try done.
        congruence.
      * apply Hset; [done|congruence].
    + split_and!; [|done|done|done|simpl; by rewrite length_insert|].
      * apply (Hreg i t Threads.Done); try done. congruence.
      * apply Hset; [done|congruence].
    + split_and!; [|done|done|done|simpl; by rewrite length_insert|].
      * apply (Hreg i t Threads.Done); try done. congruence.
      * apply Hset; [done|congruence].
  - destruct (Threads.tasks c !! i) as [t|] eqn:Ht; [|done].
    destruct (Threads.task_pc t) eqn:Hpc; try done.
    destruct resp as [css|];
      [destruct (all_urls (parse_stylesheet (Threads.task_family t) css))
         as [|font_url urls]|]; intros [= <-].
    + split_and!; [|done|done|done|simpl; by rewrite length_insert|].
      * apply (Hreg i t Threads.Done); try done. congruence.
      * apply Hset; [done|congruence].
    + split_and!; [|done|done|done|simpl; by rewrite length_insert|].
      * apply (Hreg i t (Threads.AtPreviewWrite font_url)); try done.
        congruence.
      * apply Hset; [done|congruence].
    + split_and!; [|done|done|done|simpl; by rewrite length_insert|].
      * apply (Hreg i t Threads.Done); try done. congruence.
      * apply Hset; [done|congruence].
  - (* line 230 *)
    destruct (Threads.tasks c !! i) as [t|] eqn:Ht; [|done].
    destruct (Threads.task_pc t) eqn:Hpc; try done.
    intros [= <-]. split_and!.
    + intros Hr k. cbn [Threads.shared preview_fonts page_fonts].
      destruct (decide (k = Threads.task_key t)) as [->|Hne].
      * intros _. right.
        eapply (pending_insert_new _ i t); [done| |reflexivity].
        unfold Threads.between_writes. simpl. by rewrite bool_decide_true.
      * rewrite lookup_insert_ne by done. intros Hk.
        destruct (Hr k Hk) as [?|Hp]; [by left|right].
        eapply (pending_insert_other k i t); [done| |reflexivity|done].
        apply between_writes_pc. congruence.
    + simpl. rewrite dom_insert_L. set_solver.
    + done.
    + done.
    + simpl. by rewrite length_insert.
    + apply (Hset i t (Threads.AtFontsWrite font_url)); [done|congruence].
  - (* line 231 *)
    destruct (Threads.tasks c !! i) as [t|] eqn:Ht; [|done].
    destruct (Threads.task_pc t) eqn:Hpc; try done.
    intros [= <-]. split_and!.
    + intros Hr k. cbn [Threads.shared preview_fonts page_fonts]. intros Hk.
      destruct (decide (k = Threads.task_key t)) as [->|Hne].
      { left. rewrite lookup_insert_eq. by eexists. }
      rewrite lookup_insert_ne by done.
      destruct (Hr k Hk) as [?|(j & tj & Hj & Hb)]; [by left|right].
      exists j, tj. split; [|done]. simpl.
      rewrite list_lookup_insert_ne; [done|]. intros ->.
      rewrite Ht in Hj. injection Hj as <-.
      unfold Threads.between_writes in Hb. rewrite Hpc in Hb.
      by apply bool_decide_eq_true in Hb.
    + done.
    + simpl. rewrite dom_insert_L. set_solver.
    + done.
    + simpl. by rewrite length_insert.
    + apply (Hset i t Threads.Done); [done|congruence].
Qed.

Lemma registered_all_done (c : Threads.config) :
  Threads.registered c ->
  Threads.all_done c ->
  dom (preview_fonts (Threads.shared c)) ⊆ dom (page_fonts (Threads.shared c)).
Proof.
  intros Hr Hd k Hk. apply elem_of_dom. apply elem_of_dom in Hk.
  destruct (Hr k Hk) as [?|(j & t & Hj & Hb)]; [done|].
  unfold Threads.all_done in Hd. rewrite Forall_lookup in Hd.
  specialize (Hd j t Hj). unfold Threads.between_writes in Hb.
  by rewrite Hd in Hb.
Qed.

(** X25.  Along every schedule of the preview tasks, in which the two
    writes of [update_fonts] are steps of their own and any task may step
    between them, and in which [new_font] does not run: a key once in [page._preview_fonts] or in [page.fonts]
    stays there; every key of the cache is a key of [page.fonts] too or
    has a task standing between the two writes for it, when this was so at
    the start, so that the keys of the cache are keys of [page.fonts]
    whenever all tasks have finished; the request log only grows at its
    end, no task disappears, and a task that has finished takes no further
    step.  That the two dictionaries hold the same URL under a key is not
    an invariant. *)
Theorem threads_invariants (evs : list Threads.event) (c c' : Threads.config) :
  Threads.run evs c = Some c' ->
  (Threads.registered c ->
   Threads.registered c'
   /\ (Threads.all_done c' ->
       dom (preview_fonts (Threads.shared c'))
       ⊆ dom (page_fonts (Threads.shared c'))))
  /\ dom (preview_fonts (Threads.shared c))
     ⊆ dom (preview_fonts (Threads.shared c'))
  /\ dom (page_fonts (Threads.shared c))
     ⊆ dom (page_fonts (Threads.shared c'))
  /\ requests (Threads.shared c) `prefix_of` requests (Threads.shared c')
  /\ length (Threads.tasks c) <= length (Threads.tasks c')
  /\ (forall i t, Threads.tasks c !! i = Some t ->
        Threads.task_pc t = Threads.Done ->
        Threads.tasks c' !! i = Some t).
Proof.
  intros Hrun.
  assert ((Threads.registered c -> Threads.registered c')
          /\ dom (preview_fonts (Threads.shared c))
             ⊆ dom (preview_fonts (Threads.shared c'))
          /\ dom (page_fonts (Threads.shared c))
             ⊆ dom (page_fonts (Threads.shared c'))
          /\ requests (Threads.shared c)
             `prefix_of` requests (Threads.shared c')
          /\ length (Threads.tasks c) <= length (Threads.tasks c')
          /\ (forall i t, Threads.tasks c !! i = Some t ->
                Threads.task_pc t = Threads.Done ->
                Threads.tasks c' !! i = Some t)) as (H1 & H2 & H3 & H4 & H5 & H6).
  { revert c Hrun. induction evs as [|ev evs IH]; intros c; simpl.
    - intros [= <-]. by split_and!.
    - destruct (Threads.step ev c) as [c1|] eqn:Hs; [|done].
      intros Hr. apply step_invariants in Hs as (A1 & A2 & A3 & A4 & A5 & A6).
      apply IH in Hr as (B1 & B2 & B3 & B4 & B5 & B6).
      split_and!; [auto|by etrans|by etrans|by etrans|lia|auto]. }
  split_and!; try done.
  intros Hr. split; [auto|]. intros Hd. apply registered_all_done; auto.
Qed.

Lemma threads_invariants_witness :
  exists c',
    Threads.run
      (Threads.crossed_writes_schedule "Roboto" (catalog_of [entry "Roboto"])
         block_example stray_url_example) Threads.initial = Some c'
    /\ Threads.registered c'
    /\ dom (preview_fonts (Threads.shared c'))
       ⊆ dom (page_fonts (Threads.shared c'))
    /\ length (Threads.tasks Threads.initial) <= length (Threads.tasks c').
Proof.
  destruct (Threads.run
              (Threads.crossed_writes_schedule "Roboto"
                 (catalog_of [entry "Roboto"]) block_example
                 stray_url_example) Threads.initial)
    as [c'|] eqn:Hr; [|vm_compute in Hr; discriminate Hr].
  exists c'. split; [done|].
  destruct (threads_invariants _ Threads.initial c' Hr)
    as (H1 & _ & _ & _ & H5 & _).
  destruct H1 as [H1 H1'].
  { intros k Hk. simpl in Hk. rewrite lookup_empty in Hk. by destruct Hk. }
  split_and!; [done| |done].
  apply H1'. vm_compute in Hr. injection Hr as <-.
  unfold Threads.all_done. simpl. repeat constructor.
Defined.

Local Opaque find_font_family parse_stylesheet css_url font_key_of.

Lemma crossed_writes_run (family_name c : string)
    (md : gmap string (list (gmap string string)))
    (css1 css2 u1 u2 : string) (rest1 rest2 : list string) :
  find_font_family (Threads.metadata_answer (Some md)) family_name None
  = Some c ->
  Py.truthy c = true ->
  all_urls (parse_stylesheet family_name css1) = u1 :: rest1 ->
  all_urls (parse_stylesheet family_name css2) = u2 :: rest2 ->
  Threads.run
    (Threads.crossed_writes_schedule family_name md css1 css2)
    Threads.initial
  = Some {| Threads.shared :=
              {| preview_fonts := <[font_key_of family_name := u2]>
                                    (<[font_key_of family_name := u1]> ∅);
                 page_fonts := <[font_key_of family_name := u1]>
                                 (<[font_key_of family_name := u2]> ∅);
                 requests := [metadata_url; metadata_url;
                              css_url c; css_url c] |};
            Threads.tasks :=
              [{| Threads.task_family := family_name;
                  Threads.task_key := font_key_of family_name;
                  Threads.task_pc := Threads.Done |};
               {| Threads.task_family := family_name;
                  Threads.task_key := font_key_of family_name;
                  Threads.task_pc := Threads.Done |}] |}.
Proof.
  intros Hc Ht H1 H2. unfold Threads.crossed_writes_schedule.
  assert (~ is_Some ((∅ : gmap string string) !! font_key_of family_name))
    as Hno by (rewrite lookup_empty; by intros [? ?]).
  do 12 (erewrite run_step;
         [|simpl; rewrite ?decide_False by done; rewrite ?Hc; simpl;
           rewrite ?Ht, ?H1, ?H2; simpl; reflexivity]).
  reflexivity.
Qed.

Local Transparent find_font_family parse_stylesheet css_url font_key_of.

(** X28.  The two dictionaries can end up with different URLs under one
    key.  Two tasks for one family, both started before the key is cached,
    each get a stylesheet; when their writes cross (the second task writes
    [page._preview_fonts] last, the first writes [page.fonts] last), all
    tasks have finished and [page._preview_fonts] holds the first URL of the
    second stylesheet while [page.fonts] holds the first URL of the first. *)
Theorem crossed_writes_disagree (family_name c : string)
    (md : gmap string (list (gmap string string)))
    (css1 css2 u1 u2 : string) (rest1 rest2 : list string) :
  find_font_family (Threads.metadata_answer (Some md)) family_name None
  = Some c ->
  c <> "" ->
  all_urls (parse_stylesheet family_name css1) = u1 :: rest1 ->
  all_urls (parse_stylesheet family_name css2) = u2 :: rest2 ->
  exists cfg,
    Threads.run
      (Threads.crossed_writes_schedule family_name md css1 css2)
      Threads.initial = Some cfg
    /\ Threads.reachable cfg
    /\ Threads.all_done cfg
    /\ preview_fonts (Threads.shared cfg) !! font_key_of family_name = Some u2
    /\ page_fonts (Threads.shared cfg) !! font_key_of family_name = Some u1.
Proof.
  intros Hc Ht%truthy_true H1 H2.
  pose proof (crossed_writes_run _ _ _ _ _ _ _ _ _ Hc Ht H1 H2) as Hrun.
  eexists. split; [exact Hrun|].
  split; [eexists; exact Hrun|].
  split_and!.
  - unfold Threads.all_done. simpl. by repeat constructor.
  - simpl. apply lookup_insert_eq.
  - simpl. apply lookup_insert_eq.
Qed.

Lemma crossed_writes_disagree_witness :
  exists cfg,
    Threads.run
      (Threads.crossed_writes_schedule "Roboto" (catalog_of [entry "Roboto"])
         block_example stray_url_example)
      Threads.initial = Some cfg
    /\ Threads.reachable cfg
    /\ Threads.all_done cfg
    /\ preview_fonts (Threads.shared cfg) !! font_key_of "Roboto"
       = Some "https://x/z.ttf"
    /\ page_fonts (Threads.shared cfg) !! font_key_of "Roboto"
       = Some "https://x/y.woff2".
Proof.
  apply (crossed_writes_disagree "Roboto" "Roboto"
           (catalog_of [entry "Roboto"]) block_example stray_url_example
           "https://x/y.woff2" "https://x/z.ttf" [] []).
  - vm_compute. reflexivity.
  - discriminate.
  - vm_compute. reflexivity.
  - vm_compute. reflexivity.
Defined.

Lemma task_alone_is_load_font_witness :
  let c := {| Threads.shared := initial_session;
              Threads.tasks :=
                [{| Threads.task_family := "Roboto";
                    Threads.task_key := font_key_of "Roboto";
                    Threads.task_pc := Threads.AtCheck |}] |} in
  exists c',
    Threads.run
      (Threads.schedule_alone
         (serve (catalog_of [entry "Roboto"]) block_example) 0 5 c) c
    = Some c'
    /\ Threads.shared c'
       = load_font (serve (catalog_of [entry "Roboto"]) block_example)
           "Roboto" (font_key_of "Roboto") initial_session
    /\ Threads.tasks c'
       = <[0 := {| Threads.task_family := "Roboto";
                   Threads.task_key := font_key_of "Roboto";
                   Threads.task_pc := Threads.Done |}]> (Threads.tasks c)
    /\ Threads.next_event
         (serve (catalog_of [entry "Roboto"]) block_example) 0 c' = None.
Proof.
  intros c.
  apply (task_alone_is_load_font
           (serve (catalog_of [entry "Roboto"]) block_example) c 0
           {| Threads.task_family := "Roboto";
              Threads.task_key := font_key_of "Roboto";
              Threads.task_pc := Threads.AtCheck |}).
  - reflexivity.
  - reflexivity.
Defined.

Lemma sum_list_insert (f : Threads.task -> nat) (l : list Threads.task)
    (i : nat) (x y : Threads.task) :
  l !! i = Some x ->
  sum_list (f <$> <[i := y]> l) + f x = sum_list (f <$> l) + f y.
Proof.
  revert i. induction l as [|z l IH]; intros [|i] H; simpl in *; try done.
  - injection H as ->. lia.
  - specialize (IH i H). unfold fmap in IH. lia.
Qed.

Lemma step_requests (ev : Threads.event) (c c' : Threads.config) :
  Threads.step ev c = Some c' ->
  length (requests (Threads.shared c'))
  + sum_list (requests_sent_by ∘ Threads.task_pc <$> Threads.tasks c)
  <= length (requests (Threads.shared c))
     + sum_list (requests_sent_by ∘ Threads.task_pc <$> Threads.tasks c').
Proof.
  assert (forall i t p,
            Threads.tasks c !! i = Some t ->
            sum_list (requests_sent_by ∘ Threads.task_pc
                        <$> Threads.tasks (Threads.set_pc i t p c))
            + requests_sent_by (Threads.task_pc t)
            = sum_list (requests_sent_by ∘ Threads.task_pc <$> Threads.tasks c)
              + requests_sent_by p) as Hset.
  { intros i t p Ht. simpl.
    by rewrite (sum_list_insert (requests_sent_by ∘ Threads.task_pc) _ i t). }
  destruct ev as [fam|i|i resp|i resp|i|i]; cbn [Threads.step].
  - destruct (decide (is_Some (preview_fonts (Threads.shared c)
                                 !! font_key_of fam))); intros [= <-]; simpl.
    + lia.
    + rewrite fmap_app, sum_list_with_app. simpl. lia.
  - destruct (Threads.tasks c !! i) as [t|] eqn:Ht; [|done].
    destruct (Threads.task_pc t) eqn:Hpc; try done.
    destruct (decide (is_Some (preview_fonts (Threads.shared c)
                                 !! Threads.task_key t))); intros [= <-].
    + pose proof (Hset i t Threads.Done Ht) as H. rewrite Hpc in H.
      simpl in *. lia.
    + pose proof (Hset i t Threads.AwaitMetadata Ht) as H. rewrite Hpc in H.
      simpl in *. rewrite length_app. simpl. lia.
  - destruct (Threads.tasks c !! i) as [t|] eqn:Ht; [|done].
    destruct (Threads.task_pc t) eqn:Hpc; try done.
    destruct (find_font_family _ _ _) as [cn|];
      [destruct (Py.truthy cn)|]; intros [= <-].
    + pose proof (Hset i t (Threads.AwaitStylesheet (css_url cn)) Ht) as H.
      rewrite Hpc in H. simpl in *. rewrite length_app. simpl. lia.
    + pose proof (Hset i t Threads.Done Ht) as H. rewrite Hpc in H.
      simpl in *. lia.
    + pose proof (Hset i t Threads.Done Ht) as H. rewrite Hpc in H.
      simpl in *. lia.
  - destruct (Threads.tasks c !! i) as [t|] eqn:Ht; [|done].
    destruct (Threads.task_pc t) eqn:Hpc; try done.
    destruct resp as [css|];
      [destruct (all_urls (parse_stylesheet (Threads.task_family t) css))
         as [|font_url urls]|]; intros [= <-].
    + pose proof (Hset i t Threads.Done Ht) as H. rewrite Hpc in H.
      simpl in *. lia.
    + pose proof (Hset i t (Threads.AtPreviewWrite font_url) Ht) as H.
      rewrite Hpc in H. simpl in *. lia.
    + pose proof (Hset i t Threads.Done Ht) as H. rewrite Hpc in H.
      simpl in *. lia.
  - destruct (Threads.tasks c !! i) as [t|] eqn:Ht; [|done].
    destruct (Threads.task_pc t) eqn:Hpc; try done.
    pose proof (Hset i t (Threads.AtFontsWrite font_url) Ht) as H.
    rewrite Hpc in H. intros [= <-]. simpl in *. lia.
  - destruct (Threads.tasks c !! i) as [t|] eqn:Ht; [|done].
    destruct (Threads.task_pc t) eqn:Hpc; try done.
    pose proof (Hset i t Threads.Done Ht) as H.
    rewrite Hpc in H. intros [= <-]. simpl in *. lia.
Qed.

Lemma sum_requests_sent_by (l : list Threads.task) :
  sum_list (requests_sent_by ∘ Threads.task_pc <$> l) <= 2 * length l.
Proof.
  induction l as [|t l IH]; simpl; [lia|].
  unfold fmap in IH. destruct (Threads.task_pc t); simpl; lia.
Qed.

(** X27.  However the preview tasks are scheduled, they never send more
    than two requests for each task started: along any schedule the request
    log grows by at most two entries for each task that is new or not yet
    finished with its requests, and in every reachable configuration it
    holds at most twice as many requests as there are tasks. *)
Theorem at_most_two_requests_per_task (c : Threads.config) :
  Threads.reachable c ->
  length (requests (Threads.shared c)) <= 2 * length (Threads.tasks c).
Proof.
  intros [evs Hr].
  assert (forall evs c0 c1,
            Threads.run evs c0 = Some c1 ->
            length (requests (Threads.shared c1))
            + sum_list (requests_sent_by ∘ Threads.task_pc <$> Threads.tasks c0)
            <= length (requests (Threads.shared c0))
               + sum_list (requests_sent_by ∘ Threads.task_pc
                             <$> Threads.tasks c1)) as Hrun.
  { clear. intros evs. induction evs as [|ev evs IH]; intros c0 c1; simpl.
    - intros [= <-]. lia.
    - destruct (Threads.step ev c0) as [c'|] eqn:Hs; [|done].
      intros Hr. apply step_requests in Hs. apply IH in Hr. lia. }
  apply Hrun in Hr. simpl in Hr.
  pose proof (sum_requests_sent_by (Threads.tasks c)). lia.
Qed.

Lemma at_most_two_requests_per_task_witness :
  exists c,
    Threads.run Threads.race_schedule Threads.initial = Some c
    /\ length (requests (Threads.shared c)) <= 2 * length (Threads.tasks c).
Proof.
  destruct (Threads.run Threads.race_schedule Threads.initial)
    as [c|] eqn:Hr; [|vm_compute in Hr; discriminate Hr].
  exists c. split; [done|].
  apply (at_most_two_requests_per_task c). by exists Threads.race_schedule.
Defined.
